(** * core-js-101, 06-objects-tasks.js: the CSS selector builder, Rectangle
      and the JSON helpers

    A shallow embedding of [src/06-objects-tasks.js]: first the class
    [Builder] and its facade [cssSelectorBuilder], then [Rectangle], then
    [getJSON] and [fromJSON]; the theorems follow the definitions.

    Builder instances are JavaScript objects: they are mutated in place and
    passed by reference ([combine] receives two of them), so they live in a
    store indexed by references, and every method takes the reference [this]
    and runs in a state-and-exception monad over that store.  A [throw]
    keeps the store as it is at that point: what a method wrote before it
    threw stays written. *)

From Stdlib Require Import ZArith Lia Ascii DecimalString PrimFloat.
From Stdlib Require DecimalFacts DecimalNat.
From stdpp Require Import gmap strings list fin_maps.

Open Scope Z_scope.

(** ** Thrown values

    The source throws [new Error(message)] only.  [TypeError] is what the
    engine raises when a property is read from, or a method called on,
    something that is not there; [SyntaxError] is what [JSON.parse] raises
    on a text that is not JSON. *)
Inductive exn :=
  | Error (message : string)
  | TypeError
  | SyntaxError.

(** JavaScript truthiness of the values the source branches on:
    [if (this.order)] on a number, [if (this.el)] on [null] or [true]. *)
Definition truthy (n : Z) : bool := negb (n =? 0).

Module Builder.

(** The fields assigned by [constructor()].  [el] and [pseudo] hold [null]
    or [true] in the source: [false] stands for [null]. *)
Record t := mk {
  result : string;
  el : bool;
  pseudo : bool;
  error : string;
  orderError : string;
  order : Z
}.

Definition set_result (s : string) (b : t) : t :=
  mk s (el b) (pseudo b) (error b) (orderError b) (order b).
Definition set_el (v : bool) (b : t) : t :=
  mk (result b) v (pseudo b) (error b) (orderError b) (order b).
Definition set_pseudo (v : bool) (b : t) : t :=
  mk (result b) (el b) v (error b) (orderError b) (order b).
Definition set_order (n : Z) (b : t) : t :=
  mk (result b) (el b) (pseudo b) (error b) (orderError b) n.

(** *** The store and the monad *)

Abbreviation ref := positive.
Abbreviation heap := (gmap ref t).

Definition M (A : Type) : Type := heap -> (exn + A) * heap.

#[global] Instance M_ret : MRet M := fun A a h => (inr a, h).
#[global] Instance M_bind : MBind M := fun A B f m h =>
  match m h with
  | (inr a, h') => f a h'
  | (inl e, h') => (inl e, h')
  end.

Definition throw {A : Type} (e : exn) : M A := fun h => (inl e, h).

(** The empty [else] branch of an [if] statement. *)
Definition skip : M unit := mret tt.

Definition load (r : ref) : M t := fun h =>
  match h !! r with
  | Some b => (inr b, h)
  | None => (inl TypeError, h)
  end.

Definition store (r : ref) (b : t) : M unit := fun h => (inr tt, <[r:=b]> h).

Definition alloc (b : t) : M ref := fun h =>
  let r := fresh (dom h) in (inr r, <[r:=b]> h).

(** [this.f] and [this.f = v]. *)
Definition get {A : Type} (this : ref) (f : t -> A) : M A :=
  b ← load this; mret (f b).
Definition set (this : ref) (upd : t -> t) : M unit :=
  b ← load this; store this (upd b).

(** *** [class Builder] *)

Definition error_text : string :=
  "Element, id and pseudo-element should not occur more then one time inside the selector".
Definition orderError_text : string :=
  "Selector parts should be arranged in the following order: element, id, class, attribute, pseudo-class, pseudo-element".

(** [new Builder()] *)
Definition new : M ref :=
  alloc (mk "" false false error_text orderError_text 0).

Definition element (this : ref) (value : string) : M ref :=
  o ← get this order;
  (if truthy o then msg ← get this orderError; throw (Error msg) else skip);;
  e ← get this el;
  (if e : bool then msg ← get this error; throw (Error msg) else skip);;
  set this (set_el true);;
  r ← get this result;
  set this (set_result (r +:+ value));;
  mret this.

Definition id (this : ref) (value : string) : M ref :=
  o ← get this order;
  (if 1 <? o then msg ← get this orderError; throw (Error msg) else skip);;
  o ← get this order;
  (if truthy o then msg ← get this error; throw (Error msg) else skip);;
  set this (set_order 1);;
  r ← get this result;
  set this (set_result (r +:+ "#" +:+ value));;
  mret this.

Definition class (this : ref) (value : string) : M ref :=
  o ← get this order;
  (if 2 <? o then msg ← get this orderError; throw (Error msg) else skip);;
  set this (set_order 2);;
  r ← get this result;
  set this (set_result (r +:+ "." +:+ value));;
  mret this.

Definition attr (this : ref) (value : string) : M ref :=
  o ← get this order;
  (if 3 <? o then msg ← get this orderError; throw (Error msg) else skip);;
  set this (set_order 3);;
  r ← get this result;
  set this (set_result (r +:+ "[" +:+ value +:+ "]"));;
  mret this.

Definition pseudoClass (this : ref) (value : string) : M ref :=
  o ← get this order;
  (if 4 <? o then msg ← get this orderError; throw (Error msg) else skip);;
  set this (set_order 4);;
  r ← get this result;
  set this (set_result (r +:+ ":" +:+ value));;
  mret this.

Definition pseudoElement (this : ref) (value : string) : M ref :=
  set this (set_order 5);;
  p ← get this pseudo;
  (if p : bool then msg ← get this error; throw (Error msg) else skip);;
  set this (set_pseudo true);;
  r ← get this result;
  set this (set_result (r +:+ "::" +:+ value));;
  mret this.

Definition stringify (this : ref) : M string :=
  get this result.

Definition combine (this selector1 : ref) (combinator : string) (selector2 : ref)
  : M ref :=
  s1 ← stringify selector1;
  s2 ← stringify selector2;
  set this (set_result (s1 +:+ " " +:+ combinator +:+ " " +:+ s2));;
  mret this.

End Builder.

(** ** The facade [cssSelectorBuilder] *)
Module cssSelectorBuilder.

Definition element (value : string) : Builder.M Builder.ref :=
  element ← Builder.new;
  Builder.element element value;;
  mret element.

Definition id (value : string) : Builder.M Builder.ref :=
  id ← Builder.new;
  Builder.id id value;;
  mret id.

Definition class (value : string) : Builder.M Builder.ref :=
  setClass ← Builder.new;
  Builder.class setClass value;;
  mret setClass.

Definition attr (value : string) : Builder.M Builder.ref :=
  attr ← Builder.new;
  Builder.attr attr value;;
  mret attr.

Definition pseudoClass (value : string) : Builder.M Builder.ref :=
  pseudoClass ← Builder.new;
  Builder.pseudoClass pseudoClass value;;
  mret pseudoClass.

Definition pseudoElement (value : string) : Builder.M Builder.ref :=
  pseudoElement ← Builder.new;
  Builder.pseudoElement pseudoElement value;;
  mret pseudoElement.

Definition combine (selector1 : Builder.ref) (combinator : string)
    (selector2 : Builder.ref) : Builder.M Builder.ref :=
  combine ← Builder.new;
  Builder.combine combine selector1 combinator selector2;;
  mret combine.

End cssSelectorBuilder.

(** ** Fragments, chains and client programs *)

(** One fragment-appending call, with its argument. *)
Inductive part :=
  | Element (value : string)
  | Id (value : string)
  | Class (value : string)
  | Attr (value : string)
  | PseudoClass (value : string)
  | PseudoElement (value : string).

(** [this.element(value)], [this.id(value)], ... *)
Definition append (this : Builder.ref) (p : part) : Builder.M Builder.ref :=
  match p with
  | Element v => Builder.element this v
  | Id v => Builder.id this v
  | Class v => Builder.class this v
  | Attr v => Builder.attr this v
  | PseudoClass v => Builder.pseudoClass this v
  | PseudoElement v => Builder.pseudoElement this v
  end.

(** A fluent chain [this.m1(v1).m2(v2)...]: each call is made on the
    reference the previous one returned; the first [throw] ends it. *)
Fixpoint chain (this : Builder.ref) (ps : list part) : Builder.M Builder.ref :=
  match ps with
  | [] => mret this
  | p :: ps' => r ← append this p; chain r ps'
  end.

(** The category ranks and the syntax of a fragment, as the header comment
    of the source lists them:
    [element#id.class[attr]:pseudoClass::pseudoElement]. *)
Definition rank (p : part) : Z :=
  match p with
  | Element _ => 0
  | Id _ => 1
  | Class _ => 2
  | Attr _ => 3
  | PseudoClass _ => 4
  | PseudoElement _ => 5
  end.

Definition fragment (p : part) : string :=
  match p with
  | Element v => v
  | Id v => "#" +:+ v
  | Class v => "." +:+ v
  | Attr v => "[" +:+ v +:+ "]"
  | PseudoClass v => ":" +:+ v
  | PseudoElement v => "::" +:+ v
  end.

Definition fragments (ps : list part) : string :=
  foldr (fun p s => fragment p +:+ s) "" ps.

(** A selector in a valid category ordering:
    element?, id?, class*, attribute*, pseudo-class*, pseudo-element?. *)
Record selector := {
  sel_element : option string;
  sel_id : option string;
  sel_classes : list string;
  sel_attrs : list string;
  sel_pseudoClasses : list string;
  sel_pseudoElement : option string
}.

Definition calls_of (s : selector) : list part :=
  option_list (Element <$> sel_element s) ++
  option_list (Id <$> sel_id s) ++
  (Class <$> sel_classes s) ++
  (Attr <$> sel_attrs s) ++
  (PseudoClass <$> sel_pseudoClasses s) ++
  option_list (PseudoElement <$> sel_pseudoElement s).

(** [new Builder().m1(v1).m2(v2)...stringify()] *)
Definition build (ps : list part) : Builder.M string :=
  this ← Builder.new;
  r ← chain this ps;
  Builder.stringify r.

(** [cssSelectorBuilder.m(v)] *)
Definition facade (p : part) : Builder.M Builder.ref :=
  match p with
  | Element v => cssSelectorBuilder.element v
  | Id v => cssSelectorBuilder.id v
  | Class v => cssSelectorBuilder.class v
  | Attr v => cssSelectorBuilder.attr v
  | PseudoClass v => cssSelectorBuilder.pseudoClass v
  | PseudoElement v => cssSelectorBuilder.pseudoElement v
  end.

(** [cssSelectorBuilder.m1(v1).m2(v2)...stringify()] *)
Definition build_facade (p : part) (ps : list part) : Builder.M string :=
  r0 ← facade p;
  r ← chain r0 ps;
  Builder.stringify r.

(** The two errors of the builder, told apart by their message. *)
Definition OrderError : exn := Error Builder.orderError_text.
Definition DuplicateError : exn := Error Builder.error_text.

(** What a client of the module can do to the store: construct a builder,
    call a fragment method or [combine] on builders it holds.  A client may
    catch what a call throws and go on, so the store after a statement is
    the store the call left, whether it returned or threw. *)
Inductive stmt :=
  | New
  | Append (this : Builder.ref) (p : part)
  | Combine (this selector1 : Builder.ref) (combinator : string)
            (selector2 : Builder.ref).

Definition exec (s : stmt) : Builder.M Builder.ref :=
  match s with
  | New => Builder.new
  | Append this p => append this p
  | Combine this s1 c s2 => Builder.combine this s1 c s2
  end.

Definition step (h : Builder.heap) (s : stmt) : Builder.heap := snd (exec s h).

Definition run (ss : list stmt) : Builder.heap := foldl step ∅ ss.

Definition reachable (h : Builder.heap) : Prop := exists ss, h = run ss.

(** A singleton fragment that [b] already carries, with nothing of a
    higher category appended since: the element while [order] is still 0,
    the id while [order] is still 1, the pseudo-element at any time. *)
Definition repeats (b : Builder.t) (p : part) : Prop :=
  match p with
  | Element _ => Builder.el b = true /\ Builder.order b = 0
  | Id _ => Builder.order b = 1
  | PseudoElement _ => Builder.pseudo b = true
  | Class _ | Attr _ | PseudoClass _ => False
  end.

(** Nested calls of the facade's [combine]; a leaf is a builder made
    before.  JavaScript evaluates the arguments of a call left to right. *)
Inductive combination :=
  | Leaf (selector : Builder.ref)
  | Comb (selector1 : combination) (combinator : string)
         (selector2 : combination).

Fixpoint eval (e : combination) : Builder.M Builder.ref :=
  match e with
  | Leaf r => mret r
  | Comb e1 c e2 =>
      s1 ← eval e1;
      s2 ← eval e2;
      cssSelectorBuilder.combine s1 c s2
  end.

(** The combination as written: the texts of its leaves in the store [h],
    each combinator between two spaces. *)
Fixpoint written (h : Builder.heap) (e : combination) : option string :=
  match e with
  | Leaf r => Builder.result <$> h !! r
  | Comb e1 c e2 =>
      s1 ← written h e1;
      s2 ← written h e2;
      Some (s1 +:+ " " +:+ c +:+ " " +:+ s2)
  end.

(** *** Programs used as examples below *)

Definition after_class : Builder.heap := run [New; Append 1 (Class "main")].

Definition after_element : Builder.heap :=
  run [New; Append 1 (Element "table")].

Definition after_element_class : Builder.heap :=
  step after_element (Append 1 (Class "wide")).

Definition after_id : Builder.heap := run [New; Append 1 (Id "main")].

Definition after_pseudoElement : Builder.heap :=
  run [New; Append 1 (PseudoElement "after")].

Definition three_builders : Builder.heap :=
  run [New; Append 1 (Element "div"); Append 1 (Id "main");
       New; Append 2 (Element "table"); Append 2 (Id "data");
       New; Append 3 (Class "old")].

(** The last example of the header comment of the source:
    [builder.combine(div..., '+', builder.combine(table..., '~',
       builder.combine(tr..., ' ', td...))).stringify()]. *)
Definition header_combination : Builder.M string :=
  div ← (r ← cssSelectorBuilder.element "div";
         r ← Builder.id r "main";
         r ← Builder.class r "container";
         Builder.class r "draggable");
  table ← (r ← cssSelectorBuilder.element "table"; Builder.id r "data");
  tr ← (r ← cssSelectorBuilder.element "tr";
        Builder.pseudoClass r "nth-of-type(even)");
  td ← (r ← cssSelectorBuilder.element "td";
        Builder.pseudoClass r "nth-of-type(even)");
  inner ← cssSelectorBuilder.combine tr " " td;
  middle ← cssSelectorBuilder.combine table "~" inner;
  outer ← cssSelectorBuilder.combine div "+" middle;
  Builder.stringify outer.

(** The class invariant of [Builder]. *)
Record Builder_inv (b : Builder.t) : Prop := {
  inv_error : Builder.error b = Builder.error_text;
  inv_orderError : Builder.orderError b = Builder.orderError_text;
  inv_order : 0 <= Builder.order b <= 5;
  inv_pseudo : Builder.pseudo b = true <-> Builder.order b = 5
}.

Definition heap_inv (h : Builder.heap) : Prop :=
  forall r b, h !! r = Some b -> Builder_inv b.

(** ** A fragment call in one step

    [admits b p]: every guard of the method lets the call through, on a
    builder that holds [b]; [after b p]: the assignments the method then
    makes.  [accepts b ps] follows a whole chain. *)
Definition admits (b : Builder.t) (p : part) : bool :=
  match p with
  | Element _ => negb (truthy (Builder.order b)) && negb (Builder.el b)
  | Id _ => negb (1 <? Builder.order b) && negb (truthy (Builder.order b))
  | Class _ => negb (2 <? Builder.order b)
  | Attr _ => negb (3 <? Builder.order b)
  | PseudoClass _ => negb (4 <? Builder.order b)
  | PseudoElement _ => negb (Builder.pseudo b)
  end.

Definition after (b : Builder.t) (p : part) : Builder.t :=
  match p with
  | Element v =>
      Builder.set_result (Builder.result b +:+ v) (Builder.set_el true b)
  | Id v =>
      Builder.set_result (Builder.result b +:+ "#" +:+ v) (Builder.set_order 1 b)
  | Class v =>
      Builder.set_result (Builder.result b +:+ "." +:+ v) (Builder.set_order 2 b)
  | Attr v =>
      Builder.set_result (Builder.result b +:+ "[" +:+ v +:+ "]")
        (Builder.set_order 3 b)
  | PseudoClass v =>
      Builder.set_result (Builder.result b +:+ ":" +:+ v) (Builder.set_order 4 b)
  | PseudoElement v =>
      Builder.set_result (Builder.result b +:+ "::" +:+ v)
        (Builder.set_pseudo true (Builder.set_order 5 b))
  end.

Fixpoint accepts (b : Builder.t) (ps : list part) : bool :=
  match ps with
  | [] => true
  | p :: ps' => admits b p && accepts (after b p) ps'
  end.

(* ================================================================== *)
(** * [Rectangle] *)

Section Rectangle.

(** JavaScript numbers and their product [x * y].  The constructor and the
    method only store, read and multiply them. *)
Context {number : Type} (times : number -> number -> number).

(** The own properties a constructor call assigns. *)
Record Rectangle_object := { width : number; height : number }.

(** [function hello() { return this.width * this.height; }] *)
Definition hello (this : Rectangle_object) : number :=
  times (width this) (height this).

(** [Rectangle.prototype], shared by all instances: its [getArea] property
    is absent until a constructor call has assigned it. *)
Record Rectangle_prototype := {
  getArea : option (Rectangle_object -> number)
}.

(** [new Rectangle(x, y)]: the new object, and [Rectangle.prototype] as
    the call leaves it. *)
Definition Rectangle (x y : number) (proto : Rectangle_prototype)
  : Rectangle_object * Rectangle_prototype :=
  ({| width := x; height := y |}, {| getArea := Some hello |}).

(** [r.getArea()]: an instance has no own [getArea], so the method is the
    one on the prototype, called with [this = r]. *)
Definition call_getArea (proto : Rectangle_prototype) (r : Rectangle_object)
  : exn + number :=
  match getArea proto with
  | Some method => inr (method r)
  | None => inl TypeError
  end.

End Rectangle.

(* ================================================================== *)
(** * [getJSON] and [fromJSON] *)

(** The source calls four built-ins of the engine, which are not code of
    the repository: [JSON.stringify], [JSON.parse], [Object.create] and
    [Object.keys]; and it assigns with [r[k] = j[k]], whose meaning depends
    on the prototype of [r].  Objects are modelled as far as these need:
    a value is a tree, an object made by [Object.create] is its prototype
    chain and its own properties, and a property of the chain is known by
    what an assignment through it does.  [JSON.stringify] and [JSON.parse]
    are parameters of [getJSON] and [fromJSON]; the module [JSON] below
    implements them for a fragment of the JSON texts, to run examples. *)

(** Property lists, in property order.  (An engine lists integer-like
    keys first; nothing here depends on the position of a key.) *)
Fixpoint lookup_key {A : Type} (k : string) (l : list (string * A)) : option A :=
  match l with
  | [] => None
  | (k', a) :: l' => if decide (k = k') then Some a else lookup_key k l'
  end.

(** Defining a data property writes in place if the key is there, and
    adds the property at the end if not. *)
Fixpoint define_key {A : Type} (k : string) (a : A) (l : list (string * A))
  : list (string * A) :=
  match l with
  | [] => [(k, a)]
  | (k', a') :: l' =>
      if decide (k = k') then (k', a) :: l' else (k', a') :: define_key k a l'
  end.

Set Warnings "-register-all".

Section Objects.
Context {number : Type}.

(** JavaScript values that are data.  [JSON.parse] returns such a tree;
    [Undefined] is never in it, but [j[k]] may be. *)
Inductive value :=
  | Undefined
  | Null
  | Bool (b : bool)
  | Num (n : number)
  | Str (s : string)
  | Arr (items : list value)
  | Obj (members : list (string * value)).

Definition properties := list (string * value).

(** A property found on the prototype chain: a data property, writable or
    not, or an accessor, with or without a setter.  A setter is known by
    what it does to the own properties of the object it is called on. *)
Inductive descriptor :=
  | Data (writable : bool)
  | Accessor (set : option (value -> properties -> properties)).

(** A prototype: the object itself, then its prototype, and so on; the
    empty chain is [null]. *)
Definition prototype_chain := list (list (string * descriptor)).

Record object := { prototype : prototype_chain; own : properties }.

(** The first property named [k] on the chain. *)
Fixpoint inherited (k : string) (chain : prototype_chain) : option descriptor :=
  match chain with
  | [] => None
  | o :: chain' =>
      match lookup_key k o with
      | Some d => Some d
      | None => inherited k chain'
      end
  end.

(** [r[k] = v] on an object whose own properties are all writable data
    properties.  An own property is overwritten.  Otherwise the chain
    decides: with no property [k] on it, or a writable data property, [k]
    becomes an own property of [r]; a setter is called on [r] instead;
    through a read-only property, or an accessor with no setter, the
    assignment does nothing (the file has no ["use strict"] directive and
    [fromJSON] is not inside a class, so it does not throw). *)
Definition assign (r : object) (k : string) (v : value) : object :=
  match lookup_key k (own r) with
  | Some _ => {| prototype := prototype r; own := define_key k v (own r) |}
  | None =>
      match inherited k (prototype r) with
      | None | Some (Data true) =>
          {| prototype := prototype r; own := define_key k v (own r) |}
      | Some (Data false) | Some (Accessor None) => r
      | Some (Accessor (Some setter)) =>
          {| prototype := prototype r; own := setter v (own r) |}
      end
  end.

(** The key of the array element or string character at index [i]. *)
Definition index_key (i : nat) : string :=
  NilZero.string_of_uint (Nat.to_uint i).

Fixpoint chars (s : string) : list value :=
  match s with
  | EmptyString => []
  | String c s' => Str (String c EmptyString) :: chars s'
  end.

(** The own enumerable string-keyed properties of [j], none for a number
    or a boolean; [null] and [undefined] have no properties at all. *)
Definition own_enumerable (j : value) : option properties :=
  match j with
  | Undefined | Null => None
  | Bool _ | Num _ => Some []
  | Str s => Some (imap (fun i v => (index_key i, v)) (chars s))
  | Arr items => Some (imap (fun i v => (index_key i, v)) items)
  | Obj members => Some members
  end.

(** [Object.keys(j)]; it throws [TypeError] on [null]. *)
Definition Object_keys (j : value) : option (list string) :=
  (fun ps => ps.*1) <$> own_enumerable j.

(** [j[k]] *)
Definition get_property (j : value) (k : string) : value :=
  match own_enumerable j with
  | Some ps => default Undefined (lookup_key k ps)
  | None => Undefined
  end.

(** [Object.create(x)] *)
Definition Object_create (x : prototype_chain) : object :=
  {| prototype := x; own := [] |}.

(** [JSON.stringify(x)] is a string, or [undefined] ([None]);
    [JSON.parse(y)] is a value, or throws [SyntaxError] ([None]). *)
Variable JSON_stringify : value -> option string.
Variable JSON_parse : string -> option value.

Definition getJSON (x : value) : option string := JSON_stringify x.

Definition fromJSON (x : prototype_chain) (y : string) : exn + object :=
  let r := Object_create x in
  match JSON_parse y with
  | None => inl SyntaxError
  | Some j =>
      match Object_keys j with
      | None => inl TypeError
      | Some keys =>
          inr (foldl (fun r k => assign r k (get_property j k)) r keys)
      end
  end.

End Objects.

Arguments value : clear implicits.
Arguments properties : clear implicits.
Arguments prototype_chain : clear implicits.
Arguments object : clear implicits.

(** ** [JSON.stringify] and [JSON.parse] on a fragment

    Numbers are integers, a string is escaped for the double quote and the
    backslash only, and a text has no white space between its tokens (as
    [JSON.stringify] writes it).  Used for the examples; the definitions
    and the theorem on [fromJSON] take any [JSON.stringify] and
    [JSON.parse]. *)
Module JSON.

Definition dquote : ascii := "034"%char.
Definition backslash : ascii := "092"%char.

Fixpoint escape (s : string) : string :=
  match s with
  | EmptyString => EmptyString
  | String c s' =>
      if decide (c = dquote \/ c = backslash)
      then String backslash (String c (escape s'))
      else String c (escape s')
  end.

Definition quoted (s : string) : string :=
  String dquote (escape s +:+ String dquote EmptyString).

Fixpoint join (l : list string) : string :=
  match l with
  | [] => ""
  | [s] => s
  | s :: l' => s +:+ "," +:+ join l'
  end.

(** [undefined] in an array is written [null]; a member of an object whose
    value is [undefined] is left out. *)
Fixpoint stringify (v : value Z) : option string :=
  match v with
  | Undefined => None
  | Null => Some "null"
  | Bool b => Some (if b then "true" else "false")
  | Num n => Some (NilZero.string_of_int (Z.to_int n))
  | Str s => Some (quoted s)
  | Arr items =>
      Some ("[" +:+
            join ((fix elements (l : list (value Z)) : list string :=
                     match l with
                     | [] => []
                     | x :: l' => default "null" (stringify x) :: elements l'
                     end) items) +:+ "]")
  | Obj members =>
      Some ("{" +:+
            join ((fix entries (l : list (string * value Z)) : list string :=
                     match l with
                     | [] => []
                     | (k, x) :: l' =>
                         match stringify x with
                         | Some s => (quoted k +:+ ":" +:+ s) :: entries l'
                         | None => entries l'
                         end
                     end) members) +:+ "}")
  end.

(** [s] without its prefix [p]. *)
Fixpoint strip (p s : string) : option string :=
  match p, s with
  | EmptyString, _ => Some s
  | String a p', String b s' => if decide (a = b) then strip p' s' else None
  | String _ _, EmptyString => None
  end.

(** The characters of a string literal after its opening quote, and what
    follows the closing quote. *)
Fixpoint read_string (s : string) : option (string * string) :=
  match s with
  | EmptyString => None
  | String c s' =>
      if decide (c = dquote) then Some (EmptyString, s')
      else if decide (c = backslash) then
        match s' with
        | String c' s'' =>
            if decide (c' = dquote \/ c' = backslash)
            then '(str, rest) ← read_string s''; Some (String c' str, rest)
            else None
        | EmptyString => None
        end
      else '(str, rest) ← read_string s'; Some (String c str, rest)
  end.

Definition is_number_char (c : ascii) : bool :=
  bool_decide (c = "-"%char) ||
  ((48 <=? nat_of_ascii c)%nat && (nat_of_ascii c <=? 57)%nat).

Fixpoint number_chars (s : string) : string * string :=
  match s with
  | EmptyString => (EmptyString, EmptyString)
  | String c s' =>
      if is_number_char c
      then let '(d, rest) := number_chars s' in (String c d, rest)
      else (EmptyString, s)
  end.

Definition read_number (s : string) : option (Z * string) :=
  let '(d, rest) := number_chars s in
  n ← NilZero.int_of_string d; Some (Z.of_int n, rest).

(** Recursive descent; each function returns what it read and the rest of
    the text.  A key read twice keeps its first place and its last
    value. *)
Fixpoint read_value (fuel : nat) (s : string) : option (value Z * string) :=
  match fuel with
  | O => None
  | S fuel' =>
      match s with
      | EmptyString => None
      | String c s' =>
          if decide (c = "n"%char) then rest ← strip "ull" s'; Some (Null, rest)
          else if decide (c = "t"%char) then
            rest ← strip "rue" s'; Some (Bool true, rest)
          else if decide (c = "f"%char) then
            rest ← strip "alse" s'; Some (Bool false, rest)
          else if decide (c = dquote) then
            '(str, rest) ← read_string s'; Some (Str str, rest)
          else if decide (c = "["%char) then
            match strip "]" s' with
            | Some rest => Some (Arr [], rest)
            | None => '(items, rest) ← read_elements fuel' s'; Some (Arr items, rest)
            end
          else if decide (c = "{"%char) then
            match strip "}" s' with
            | Some rest => Some (Obj [], rest)
            | None =>
                '(members, rest) ← read_members fuel' s';
                Some (Obj (foldl (fun acc m => define_key m.1 m.2 acc) [] members),
                      rest)
            end
          else '(n, rest) ← read_number s; Some (Num n, rest)
      end
  end
with read_elements (fuel : nat) (s : string) : option (list (value Z) * string) :=
  match fuel with
  | O => None
  | S fuel' =>
      '(v, rest) ← read_value fuel' s;
      match rest with
      | String c rest' =>
          if decide (c = ","%char) then
            '(vs, rest'') ← read_elements fuel' rest'; Some (v :: vs, rest'')
          else if decide (c = "]"%char) then Some ([v], rest')
          else None
      | EmptyString => None
      end
  end
with read_members (fuel : nat) (s : string)
  : option (list (string * value Z) * string) :=
  match fuel with
  | O => None
  | S fuel' =>
      s1 ← strip (String dquote EmptyString) s;
      '(k, s2) ← read_string s1;
      s3 ← strip ":" s2;
      '(v, rest) ← read_value fuel' s3;
      match rest with
      | String c rest' =>
          if decide (c = ","%char) then
            '(ms, rest'') ← read_members fuel' rest'; Some ((k, v) :: ms, rest'')
          else if decide (c = "}"%char) then Some ([(k, v)], rest')
          else None
      | EmptyString => None
      end
  end.

Definition parse (s : string) : option (value Z) :=
  match read_value (2 * String.length s + 2) s with
  | Some (v, EmptyString) => Some v
  | _ => None
  end.

End JSON.

(** *** Examples for [getJSON] and [fromJSON] *)

(** [class Circle { get radius() { return this.r; }
                    set radius(v) { this.r = v; }
                    getArea() { ... } }]: what [Circle.prototype] holds. *)
Definition Circle_prototype : prototype_chain Z :=
  [[("constructor", Data true);
    ("radius", Accessor (Some (fun v ps => define_key "r" v ps)));
    ("getArea", Data true)]].

(** A prototype with methods only. *)
Definition Square_prototype : prototype_chain Z :=
  [[("constructor", Data true); ("getArea", Data true)]].

(** [{ radius: 10 }] *)
Definition radius_10 : properties Z := [("radius", Num 10)].

(** [{"radius":10}], the text of the example in the source. *)
Definition radius_10_text : string :=
  "{" +:+ JSON.quoted "radius" +:+ ":10}".



(** A prototype with a method, a read-only property [id] and a getter
    [area] with no setter. *)
Definition Shape_prototype : prototype_chain Z :=
  [[("constructor", Data true); ("id", Data false);
    ("area", Accessor None); ("getArea", Data true)]].

(** [{ id: 7, radius: 10, area: 0 }] and its text. *)
Definition id_radius_area : properties Z :=
  [("id", Num 7); ("radius", Num 10); ("area", Num 0)].

Definition id_radius_area_text : string :=
  "{" +:+ JSON.quoted "id" +:+ ":7," +:+ JSON.quoted "radius" +:+ ":10," +:+
  JSON.quoted "area" +:+ ":0}".

(** Whether [r[k] = v] on an object with prototype chain [x] and no own
    property [k] defines the property: there is nothing named [k] on the
    chain, or a writable data property. *)
Definition assignable {number : Type} (x : prototype_chain number) (k : string)
  : bool :=
  match inherited k x with
  | None | Some (Data true) => true
  | Some (Data false) | Some (Accessor _) => false
  end.

(** No setter on the chain is named [k]. *)
Definition no_setter {number : Type} (x : prototype_chain number) (k : string)
  : Prop :=
  forall f, inherited k x <> Some (Accessor (Some f)).

(* ================================================================== *)
(** * Theorems *)

(** ** What each method does to the store

    The methods are run once and for all on a store where [this] holds a
    builder [b]; everything below is proved from these equations. *)

Ltac use_lookups :=
  repeat match goal with
         | H : ?h !! ?r = _ |- context [?h !! ?r] => rewrite H
         end.

Ltac run_method :=
  unfold Builder.get, Builder.set, Builder.load, Builder.store, Builder.skip,
    Builder.throw, mbind, Builder.M_bind, mret, Builder.M_ret;
  repeat (cbn -[truthy Z.ltb String.append];
          use_lookups;
          rewrite ?lookup_insert_eq, ?insert_insert_eq;
          try match goal with
              | |- context [if ?c then _ else _] => destruct c eqn:?
              end);
  try reflexivity;
  try (unfold Builder.set_order, Builder.set_el, Builder.set_pseudo,
         Builder.set_result in *; cbn in *; congruence).

Section run_lemmas.
Import Builder.
Variables (h : heap) (this : ref) (b : t).
Hypothesis Hthis : h !! this = Some b.

Lemma element_run value :
  element this value h =
    if truthy (order b) then (inl (Error (orderError b)), h)
    else if el b then (inl (Error (error b)), h)
    else (inr this,
          <[this := set_result (result b +:+ value) (set_el true b)]> h).
Proof. unfold element. run_method. Qed.

Lemma id_run value :
  id this value h =
    if 1 <? order b then (inl (Error (orderError b)), h)
    else if truthy (order b) then (inl (Error (error b)), h)
    else (inr this,
          <[this := set_result (result b +:+ "#" +:+ value) (set_order 1 b)]> h).
Proof. unfold id. run_method. Qed.

Lemma class_run value :
  class this value h =
    if 2 <? order b then (inl (Error (orderError b)), h)
    else (inr this,
          <[this := set_result (result b +:+ "." +:+ value) (set_order 2 b)]> h).
Proof. unfold class. run_method. Qed.

Lemma attr_run value :
  attr this value h =
    if 3 <? order b then (inl (Error (orderError b)), h)
    else (inr this,
          <[this := set_result (result b +:+ "[" +:+ value +:+ "]")
                      (set_order 3 b)]> h).
Proof. unfold attr. run_method. Qed.

Lemma pseudoClass_run value :
  pseudoClass this value h =
    if 4 <? order b then (inl (Error (orderError b)), h)
    else (inr this,
          <[this := set_result (result b +:+ ":" +:+ value) (set_order 4 b)]> h).
Proof. unfold pseudoClass. run_method. Qed.

Lemma pseudoElement_run value :
  pseudoElement this value h =
    if pseudo b then (inl (Error (error b)), <[this := set_order 5 b]> h)
    else (inr this,
          <[this := set_result (result b +:+ "::" +:+ value)
                      (set_pseudo true (set_order 5 b))]> h).
Proof. unfold pseudoElement. run_method. Qed.

Lemma stringify_run : stringify this h = (inr (result b), h).
Proof. unfold stringify. run_method. Qed.

Lemma combine_run selector1 combinator selector2 b1 b2 :
  h !! selector1 = Some b1 ->
  h !! selector2 = Some b2 ->
  combine this selector1 combinator selector2 h =
    (inr this,
     <[this := set_result (result b1 +:+ " " +:+ combinator +:+ " " +:+ result b2) b]> h).
Proof. intros H1 H2. unfold combine, stringify. run_method. Qed.

End run_lemmas.

Lemma new_run (h : Builder.heap) :
  Builder.new h =
    (inr (fresh (dom h)),
     <[fresh (dom h) := Builder.mk "" false false Builder.error_text
                          Builder.orderError_text 0]> h).
Proof. reflexivity. Qed.

Lemma fresh_unused (h : Builder.heap) : h !! fresh (dom h) = None.
Proof. apply not_elem_of_dom, is_fresh. Qed.

(** A call on a reference with no builder behind it throws [TypeError] and
    writes nothing. *)
Lemma append_dangling (h : Builder.heap) this p :
  h !! this = None -> append this p h = (inl TypeError, h).
Proof.
  intros H. destruct p; cbn [append];
    [unfold Builder.element | unfold Builder.id | unfold Builder.class
    | unfold Builder.attr | unfold Builder.pseudoClass
    | unfold Builder.pseudoElement]; run_method.
Qed.

Lemma combine_dangling (h : Builder.heap) this s1 c s2 :
  h !! this = None \/ h !! s1 = None \/ h !! s2 = None ->
  Builder.combine this s1 c s2 h = (inl TypeError, h).
Proof.
  intros H. unfold Builder.combine, Builder.stringify.
  destruct (h !! s1) eqn:H1; [|run_method].
  destruct (h !! s2) eqn:H2; [|run_method].
  destruct (h !! this) eqn:H3; [|run_method].
  destruct H as [H | [H | H]]; discriminate.
Qed.

(** ** The class invariant holds in every reachable store *)

Lemma heap_inv_insert (h : Builder.heap) r b :
  heap_inv h -> Builder_inv b -> heap_inv (<[r := b]> h).
Proof.
  intros Hh Hb r' b'. rewrite lookup_insert.
  case_decide; [intros [= <-]; exact Hb | apply Hh].
Qed.

Lemma new_inv :
  Builder_inv (Builder.mk "" false false Builder.error_text
                 Builder.orderError_text 0).
Proof. split; cbn; try reflexivity; lia. Qed.

Ltac inv_cases :=
  repeat match goal with
         | |- context [if ?c then _ else _] => destruct c eqn:?
         end;
  cbn [snd]; auto.

(** The source's comparisons, as propositions [lia] reads. *)
Ltac tests_to_Z :=
  unfold truthy in *;
  repeat match goal with
         | H : (_ <? _) = false |- _ => apply Z.ltb_ge in H
         | H : (_ <? _) = true |- _ => apply Z.ltb_lt in H
         | H : negb (_ =? _) = false |- _ =>
             apply negb_false_iff, Z.eqb_eq in H
         | H : negb (_ =? _) = true |- _ =>
             apply negb_true_iff, Z.eqb_neq in H
         end.

Ltac solve_inv :=
  match goal with
  | Hb : Builder_inv ?b |- Builder_inv _ =>
      destruct Hb as [He Ho Hr [Hp1 Hp2]]; destruct b;
      cbn in *; tests_to_Z; split; cbn; auto; try lia;
      split; intros Hq; try discriminate; try lia; auto;
      try (specialize (Hp1 Hq); lia)
  end.

Lemma append_inv (h : Builder.heap) this p :
  heap_inv h -> heap_inv (snd (append this p h)).
Proof.
  intros Hh. destruct (h !! this) as [b|] eqn:Hthis.
  - pose proof (Hh _ _ Hthis) as Hb.
    destruct p; cbn [append];
      [ rewrite (element_run _ _ _ Hthis) | rewrite (id_run _ _ _ Hthis)
      | rewrite (class_run _ _ _ Hthis) | rewrite (attr_run _ _ _ Hthis)
      | rewrite (pseudoClass_run _ _ _ Hthis)
      | rewrite (pseudoElement_run _ _ _ Hthis) ];
      inv_cases; apply heap_inv_insert; auto; solve_inv.
  - rewrite append_dangling by assumption. exact Hh.
Qed.

Lemma combine_inv (h : Builder.heap) this s1 c s2 :
  heap_inv h -> heap_inv (snd (Builder.combine this s1 c s2 h)).
Proof.
  intros Hh.
  destruct (h !! this) as [b|] eqn:Hthis;
    [|rewrite combine_dangling by auto; exact Hh].
  destruct (h !! s1) as [b1|] eqn:H1;
    [|rewrite combine_dangling by auto; exact Hh].
  destruct (h !! s2) as [b2|] eqn:H2;
    [|rewrite combine_dangling by auto; exact Hh].
  rewrite (combine_run _ _ _ Hthis _ _ _ _ _ H1 H2). cbn [snd].
  pose proof (Hh _ _ Hthis) as Hb.
  apply heap_inv_insert; auto. solve_inv.
Qed.

Lemma step_inv (h : Builder.heap) s : heap_inv h -> heap_inv (step h s).
Proof.
  intros Hh. destruct s; unfold step; cbn [exec].
  - rewrite new_run. cbn [snd]. apply heap_inv_insert; auto using new_inv.
  - apply append_inv, Hh.
  - apply combine_inv, Hh.
Qed.

Lemma reachable_inv (h : Builder.heap) : reachable h -> heap_inv h.
Proof.
  intros [ss ->]. unfold run. induction ss as [|s ss IH] using rev_ind.
  - intros r b. cbn [foldl]. rewrite lookup_empty. discriminate.
  - rewrite foldl_app. cbn [foldl]. apply step_inv, IH.
Qed.

Lemma reachable_step (h : Builder.heap) s : reachable h -> reachable (step h s).
Proof.
  intros [ss ->]. exists (ss ++ [s]). unfold run. now rewrite foldl_app.
Qed.

(** ** Chains of successful calls *)

Lemma string_app_assoc (a b c : string) : (a +:+ b) +:+ c = a +:+ b +:+ c.
Proof.
  induction a as [|x a IH]; [reflexivity|].
  change (String x ((a +:+ b) +:+ c) = String x (a +:+ b +:+ c)).
  now rewrite IH.
Qed.

Lemma string_app_empty_r (a : string) : a +:+ "" = a.
Proof.
  induction a as [|x a IH]; [reflexivity|].
  change (String x (a +:+ "") = String x a). now rewrite IH.
Qed.

Lemma fragments_app (l1 l2 : list part) :
  fragments (l1 ++ l2) = fragments l1 +:+ fragments l2.
Proof.
  induction l1 as [|p l1 IH]; cbn; [reflexivity|].
  fold (fragments (l1 ++ l2)) (fragments l1).
  now rewrite IH, string_app_assoc.
Qed.

Lemma chain_app_returns (l1 l2 : list part) (h h1 : Builder.heap) this r :
  chain this l1 h = (inr r, h1) ->
  chain this (l1 ++ l2) h = chain r l2 h1.
Proof.
  revert this h. induction l1 as [|p l1 IH]; intros this h; cbn [chain app].
  - intros [= -> ->]. reflexivity.
  - unfold mbind, Builder.M_bind.
    destruct (append this p h) as [[e|r'] h'] eqn:Hp; [discriminate|].
    apply IH.
Qed.

(** [appends this ps h b b']: from the store [h], where [this] holds [b],
    the chain [ps] returns [this] and leaves [b'] there, whose text is the
    text of [b] followed by the fragments of [ps]. *)
Local Abbreviation appends r ps h b b' :=
  (chain r%positive ps h = (inr r%positive, <[r%positive := b']> h) /\
   Builder.result b' = Builder.result b +:+ fragments ps).

Section segments.
Import Builder.
Variable this : ref.

Lemma appends_app (l1 l2 : list part) (h h1 h2 : heap) (b b1 b2 : t) :
  chain this l1 h = (inr this, h1) /\
  result b1 = result b +:+ fragments l1 ->
  chain this l2 h1 = (inr this, h2) /\
  result b2 = result b1 +:+ fragments l2 ->
  chain this (l1 ++ l2) h = (inr this, h2) /\
  result b2 = result b +:+ fragments (l1 ++ l2).
Proof.
  intros [H1 R1] [H2 R2]. split.
  - now rewrite (chain_app_returns _ _ _ _ _ _ H1), H2.
  - now rewrite R2, R1, fragments_app, string_app_assoc.
Qed.

Lemma appends_nil (h : heap) (b : t) :
  h !! this = Some b -> appends this [] h b b.
Proof.
  intros H. split; cbn.
  - now rewrite insert_id.
  - now rewrite string_app_empty_r.
Qed.

Lemma seg_element (o : option string) (h : heap) (b : t) :
  h !! this = Some b -> order b = 0 -> el b = false ->
  exists b', appends this (option_list (Element <$> o)) h b b' /\
             order b' = 0 /\ pseudo b' = pseudo b.
Proof.
  intros H Ho He. destruct o as [v|]; cbn [fmap option_fmap option_map option_list option_rect].
  - eexists. split; [split|].
    + cbn [chain append]. unfold mbind, M_bind.
      rewrite (element_run _ _ _ H), Ho, He. cbn. reflexivity.
    + cbn. now rewrite string_app_empty_r.
    + cbn. auto.
  - exists b. split; [now apply appends_nil | auto].
Qed.

Lemma seg_id (o : option string) (h : heap) (b : t) :
  h !! this = Some b -> order b = 0 ->
  exists b', appends this (option_list (Id <$> o)) h b b' /\
             order b' <= 1 /\ pseudo b' = pseudo b.
Proof.
  intros H Ho. destruct o as [v|]; cbn [fmap option_fmap option_map option_list option_rect].
  - eexists. split; [split|].
    + cbn [chain append]. unfold mbind, M_bind.
      rewrite (id_run _ _ _ H), Ho. cbn. reflexivity.
    + cbn. now rewrite string_app_empty_r.
    + cbn. split; [lia | reflexivity].
  - exists b. split; [now apply appends_nil | split; [lia | reflexivity]].
Qed.

(** The repeatable categories: any number of calls of one of them. *)
Lemma seg_repeat (mkp : string -> part) (k : Z) (vs : list string) :
  (mkp = Class /\ k = 2) \/ (mkp = Attr /\ k = 3) \/
  (mkp = PseudoClass /\ k = 4) ->
  forall (h : heap) (b : t),
  h !! this = Some b -> order b <= k ->
  exists b', appends this (mkp <$> vs) h b b' /\
             order b' <= k /\ pseudo b' = pseudo b.
Proof.
  intros Hk. induction vs as [|v vs IH]; intros h b H Ho.
  - exists b. split; [now apply appends_nil | auto].
  - assert (exists b1, appends this [mkp v] h b b1 /\ order b1 <= k /\
                       pseudo b1 = pseudo b) as (b1 & A1 & O1 & P1).
    { apply Z.ltb_ge in Ho.
      destruct Hk as [[-> ->] | [[-> ->] | [-> ->]]]; eexists;
        (split; [split|]);
        [ cbn [chain append]; unfold mbind, M_bind;
          rewrite (class_run _ _ _ H), Ho; cbn; reflexivity
        | cbn; now rewrite string_app_empty_r
        | cbn; split; [lia | reflexivity]
        | cbn [chain append]; unfold mbind, M_bind;
          rewrite (attr_run _ _ _ H), Ho; cbn; reflexivity
        | cbn; now rewrite !string_app_empty_r
        | cbn; split; [lia | reflexivity]
        | cbn [chain append]; unfold mbind, M_bind;
          rewrite (pseudoClass_run _ _ _ H), Ho; cbn; reflexivity
        | cbn; now rewrite string_app_empty_r
        | cbn; split; [lia | reflexivity] ]. }
    destruct (IH (<[this := b1]> h) b1) as (b2 & A2 & O2 & P2);
      [apply lookup_insert_eq | exact O1 |].
    exists b2. split; [|split; [exact O2 | congruence]].
    change (mkp <$> v :: vs) with ([mkp v] ++ (mkp <$> vs)).
    rewrite insert_insert_eq in A2.
    eapply appends_app; eassumption.
Qed.

Lemma seg_pseudoElement (o : option string) (h : heap) (b : t) :
  h !! this = Some b -> pseudo b = false ->
  exists b', appends this (option_list (PseudoElement <$> o)) h b b'.
Proof.
  intros H Hp. destruct o as [v|]; cbn [fmap option_fmap option_map option_list option_rect].
  - eexists. split.
    + cbn [chain append]. unfold mbind, M_bind.
      rewrite (pseudoElement_run _ _ _ H), Hp. cbn. reflexivity.
    + cbn. now rewrite string_app_empty_r.
  - exists b. now apply appends_nil.
Qed.

(** Every selector in a valid category ordering is accepted, whatever the
    store, by a builder that is still as [new Builder()] left it. *)
Lemma chain_calls_of (s : selector) (h : heap) (b : t) :
  h !! this = Some b -> order b = 0 -> el b = false -> pseudo b = false ->
  exists b', appends this (calls_of s) h b b'.
Proof.
  intros H Ho He Hp. unfold calls_of.
  destruct (seg_element (sel_element s) h b H Ho He) as (b1 & A1 & O1 & P1).
  destruct (seg_id (sel_id s) (<[this := b1]> h) b1) as (b2 & A2 & O2 & P2);
    [apply lookup_insert_eq | exact O1 |].
  destruct (seg_repeat Class 2 (sel_classes s) ltac:(auto) (<[this := b2]> h) b2)
    as (b3 & A3 & O3 & P3); [apply lookup_insert_eq | lia |].
  destruct (seg_repeat Attr 3 (sel_attrs s) ltac:(auto) (<[this := b3]> h) b3)
    as (b4 & A4 & O4 & P4); [apply lookup_insert_eq | lia |].
  destruct (seg_repeat PseudoClass 4 (sel_pseudoClasses s) ltac:(auto)
              (<[this := b4]> h) b4)
    as (b5 & A5 & O5 & P5); [apply lookup_insert_eq | lia |].
  destruct (seg_pseudoElement (sel_pseudoElement s) (<[this := b5]> h) b5)
    as (b6 & A6); [apply lookup_insert_eq | congruence |].
  exists b6.
  rewrite !insert_insert_eq in *.
  exact (appends_app _ _ _ _ _ _ _ _ A1
          (appends_app _ _ _ _ _ _ _ _ A2
            (appends_app _ _ _ _ _ _ _ _ A3
              (appends_app _ _ _ _ _ _ _ _ A4
                (appends_app _ _ _ _ _ _ _ _ A5 A6))))).
Qed.

End segments.

Lemma append_returns_this (h h' : Builder.heap) this p r :
  append this p h = (inr r, h') -> r = this.
Proof.
  destruct (h !! this) as [b|] eqn:Hthis.
  - destruct p; cbn [append];
      [ rewrite (element_run _ _ _ Hthis) | rewrite (id_run _ _ _ Hthis)
      | rewrite (class_run _ _ _ Hthis) | rewrite (attr_run _ _ _ Hthis)
      | rewrite (pseudoClass_run _ _ _ Hthis)
      | rewrite (pseudoElement_run _ _ _ Hthis) ];
      repeat match goal with
             | |- context [if ?c then _ else _] => destruct c
             end; congruence.
  - rewrite append_dangling by assumption. discriminate.
Qed.

(** Starting a chain through the facade is starting it on [new Builder()]. *)
Lemma build_facade_eq (p : part) (ps : list part) (h : Builder.heap) :
  build_facade p ps h = build (p :: ps) h.
Proof.
  unfold build_facade, build. cbn [chain].
  assert (facade p = (this ← Builder.new; append this p;; mret this)) as ->
    by now destruct p.
  unfold mbind, Builder.M_bind, mret, Builder.M_ret. rewrite new_run.
  destruct (append _ p _) as [[e|r] h1] eqn:Hp; [reflexivity|].
  now rewrite (append_returns_this _ _ _ _ _ Hp).
Qed.

(** ** The claims about the selector builder *)

(** C1. For every selector in a valid category ordering (element?, id?,
    class*, attribute*, pseudo-class*, pseudo-element?), chaining the
    corresponding methods on [new Builder()] and calling [stringify()]
    returns the concatenation of the fragments in call order, with no
    separators: the element as it is, [#id], [.class], [[attr]],
    [:pseudoClass], [::pseudoElement].  The same holds when the chain is
    started through the facade [cssSelectorBuilder]. *)
Theorem C1_valid_order_stringify (s : selector) (h : Builder.heap) :
  exists h',
    build (calls_of s) h = (inr (fragments (calls_of s)), h') /\
    match calls_of s with
    | [] => True
    | p :: ps => build_facade p ps h = (inr (fragments (calls_of s)), h')
    end.
Proof.
  assert (exists h', build (calls_of s) h = (inr (fragments (calls_of s)), h'))
    as [h' Hb].
  { unfold build, mbind, Builder.M_bind. rewrite new_run.
    set (this := fresh (dom h)).
    set (b0 := Builder.mk "" false false _ _ 0).
    destruct (chain_calls_of this s (<[this := b0]> h) b0) as (b' & Hc & Hr);
      [apply lookup_insert_eq | reflexivity ..|].
    rewrite Hc, (stringify_run _ this b') by apply lookup_insert_eq.
    rewrite Hr. cbn [Builder.result b0]. eexists. reflexivity. }
  exists h'. split; [exact Hb|].
  destruct (calls_of s) as [|p ps]; [exact I|].
  now rewrite build_facade_eq.
Qed.

(** The examples of the header comment of the source and of the test
    suite, run from the empty store. *)
Example header_id_classes :
  fst (build_facade (Id "main") [Class "container"; Class "editable"] ∅)
  = inr "#main.container.editable".
Proof. vm_compute. reflexivity. Qed.

Example header_element_attr_pseudoClass :
  fst (build_facade (Element "a")
         [Attr ("href$=" +:+ JSON.quoted ".png"); PseudoClass "focus"] ∅)
  = inr ("a[href$=" +:+ JSON.quoted ".png" +:+ "]:focus").
Proof. vm_compute. reflexivity. Qed.

Example header_combination_text :
  fst (header_combination ∅)
  = inr "div#main.container.draggable + table#data ~ tr:nth-of-type(even)   td:nth-of-type(even)".
Proof. vm_compute. reflexivity. Qed.

Example id_twice :
  fst ((r ← cssSelectorBuilder.id "main"; Builder.id r "second") ∅)
  = inl DuplicateError.
Proof. vm_compute. reflexivity. Qed.

Example id_after_class :
  fst ((r ← cssSelectorBuilder.class "a"; Builder.id r "b") ∅)
  = inl OrderError.
Proof. vm_compute. reflexivity. Qed.

(** ** Reachable stores

    A chain, a facade call and a nested [combine] are sequences of
    statements: the stores they leave are reachable. *)

Lemma reachable_append (h : Builder.heap) this p :
  reachable h -> reachable (snd (append this p h)).
Proof. apply (reachable_step h (Append this p)). Qed.

Lemma reachable_new (h : Builder.heap) :
  reachable h -> reachable (snd (Builder.new h)).
Proof. apply (reachable_step h New). Qed.

Lemma reachable_chain (ps : list part) (h : Builder.heap) this :
  reachable h -> reachable (snd (chain this ps h)).
Proof.
  revert this h. induction ps as [|p ps IH]; intros this h Hr; cbn [chain].
  - exact Hr.
  - unfold mbind, Builder.M_bind.
    pose proof (reachable_append h this p Hr) as Hp.
    destruct (append this p h) as [[e|r] h']; [exact Hp | apply IH, Hp].
Qed.

Lemma reachable_facade (p : part) (h : Builder.heap) :
  reachable h -> reachable (snd (facade p h)).
Proof.
  intros Hr.
  assert (facade p = (this ← Builder.new; append this p;; mret this)) as ->
    by now destruct p.
  unfold mbind, Builder.M_bind, mret, Builder.M_ret.
  pose proof (reachable_new h Hr) as Hn.
  destruct (Builder.new h) as [[e|r] h1]; [exact Hn|].
  pose proof (reachable_append h1 r p Hn) as Hp.
  now destruct (append r p h1) as [[e|r'] h2].
Qed.

Lemma reachable_combine (h : Builder.heap) s1 c s2 :
  reachable h -> reachable (snd (cssSelectorBuilder.combine s1 c s2 h)).
Proof.
  intros Hr. unfold cssSelectorBuilder.combine.
  unfold mbind, Builder.M_bind, mret, Builder.M_ret.
  pose proof (reachable_new h Hr) as Hn.
  destruct (Builder.new h) as [[e|r] h1]; [exact Hn|].
  pose proof (reachable_step h1 (Combine r s1 c s2) Hn) as Hp.
  unfold step in Hp. cbn [exec] in Hp.
  now destruct (Builder.combine r s1 c s2 h1) as [[e|r'] h2].
Qed.

(** The flags and the order only go up: in a store where the invariant
    holds, a statement leaves every builder there, with [el] and [pseudo]
    still set if they were, and [order] not below what it was. *)
Lemma step_monotone (h : Builder.heap) (s : stmt) r b :
  heap_inv h -> h !! r = Some b ->
  exists b', step h s !! r = Some b' /\
    (Builder.el b = true -> Builder.el b' = true) /\
    (Builder.pseudo b = true -> Builder.pseudo b' = true) /\
    Builder.order b <= Builder.order b'.
Proof.
  intros Hinv Hr.
  assert (forall this b0 b1, h !! this = Some b0 ->
            (this = r -> (Builder.el b0 = true -> Builder.el b1 = true) /\
               (Builder.pseudo b0 = true -> Builder.pseudo b1 = true) /\
               Builder.order b0 <= Builder.order b1) ->
            exists b', <[this := b1]> h !! r = Some b' /\
              (Builder.el b = true -> Builder.el b' = true) /\
              (Builder.pseudo b = true -> Builder.pseudo b' = true) /\
              Builder.order b <= Builder.order b') as Hins.
  { intros this b0 b1 H0 Hmon. rewrite lookup_insert. case_decide.
    - subst this. rewrite Hr in H0. injection H0 as <-.
      exists b1. split; [reflexivity | now apply Hmon].
    - exists b. split; [exact Hr | split; [auto | split; [auto | lia]]]. }
  assert (exists b', h !! r = Some b' /\
            (Builder.el b = true -> Builder.el b' = true) /\
            (Builder.pseudo b = true -> Builder.pseudo b' = true) /\
            Builder.order b <= Builder.order b') as Hsame.
  { exists b. split; [exact Hr | split; [auto | split; [auto | lia]]]. }
  destruct s as [|this p|this s1 c s2]; unfold step; cbn [exec].
  - rewrite new_run. cbn [snd]. rewrite lookup_insert_ne; [exact Hsame|].
    intros E. rewrite <- E, fresh_unused in Hr. discriminate.
  - destruct (h !! this) as [b0|] eqn:Hthis;
      [|rewrite append_dangling by assumption; exact Hsame].
    destruct (Hinv _ _ Hthis) as [_ _ Hrange _].
    destruct p; cbn [append];
      [ rewrite (element_run _ _ _ Hthis) | rewrite (id_run _ _ _ Hthis)
      | rewrite (class_run _ _ _ Hthis) | rewrite (attr_run _ _ _ Hthis)
      | rewrite (pseudoClass_run _ _ _ Hthis)
      | rewrite (pseudoElement_run _ _ _ Hthis) ];
      repeat match goal with
             | |- context [if ?c then _ else _] => destruct c eqn:?
             end; cbn [snd]; try exact Hsame;
      (eapply Hins; [exact Hthis|]); intros _; destruct b0; cbn in *;
      tests_to_Z; repeat split; auto; lia.
  - destruct (h !! this) as [b0|] eqn:Hthis;
      [|rewrite combine_dangling by auto; exact Hsame].
    destruct (h !! s1) as [b1|] eqn:H1;
      [|rewrite combine_dangling by auto; exact Hsame].
    destruct (h !! s2) as [b2|] eqn:H2;
      [|rewrite combine_dangling by auto; exact Hsame].
    rewrite (combine_run _ _ _ Hthis _ _ _ _ _ H1 H2). cbn [snd].
    eapply Hins; [exact Hthis|]. intros _. destruct b0; cbn.
    repeat split; auto; lia.
Qed.

(** C2. In every reachable store, a fragment call whose category rank is
    strictly below the rank the builder has recorded in [this.order] throws
    the order error, and writes nothing. *)
Theorem C2_lower_rank_throws_OrderError
    (h : Builder.heap) (this : Builder.ref) (b : Builder.t) (p : part) :
  reachable h -> h !! this = Some b -> rank p < Builder.order b ->
  append this p h = (inl OrderError, h).
Proof.
  intros Hr Hthis Hlt.
  destruct (reachable_inv h Hr this b Hthis) as [He Ho Hrange Hp].
  unfold OrderError. rewrite <- Ho.
  destruct p; cbn [append rank] in *;
    [ rewrite (element_run _ _ _ Hthis) | rewrite (id_run _ _ _ Hthis)
    | rewrite (class_run _ _ _ Hthis) | rewrite (attr_run _ _ _ Hthis)
    | rewrite (pseudoClass_run _ _ _ Hthis) | lia ];
    repeat match goal with
           | |- context [if ?c then _ else _] => destruct c eqn:?
           end; try reflexivity; tests_to_Z; lia.
Qed.

Lemma C2_witness :
  append 1 (Id "id") after_class = (inl OrderError, after_class).
Proof.
  apply (C2_lower_rank_throws_OrderError after_class 1
           (Builder.mk ".main" false false Builder.error_text
              Builder.orderError_text 2) (Id "id")).
  - exists [New; Append 1%positive (Class "main")]. reflexivity.
  - vm_compute. reflexivity.
  - cbn. lia.
Defined.

(** C3, as stated, fails: an element was appended to the builder, then a
    class; a second [element] call is rejected by the order check, which
    comes first, and what is thrown is the order error, not the duplicate
    error. *)
Lemma C3_second_element_after_class :
  fst (append 1 (Element "table") (run [New])) = inr 1%positive /\
  fst (append 1 (Class "wide") after_element) = inr 1%positive /\
  append 1 (Element "div") after_element_class =
    (inl OrderError, after_element_class) /\
  OrderError <> DuplicateError.
Proof.
  split; [|split; [|split]]; try (vm_compute; reflexivity).
  vm_compute. discriminate.
Qed.

(** C3, amended.  In every reachable store, a second [element] on a builder
    that carries an element and whose [order] is still 0, a second [id] on a
    builder whose [order] is 1, and a second [pseudoElement] on a builder
    that carries a pseudo-element, throw the duplicate error and write
    nothing. *)
Theorem C3_repeated_singleton_throws_DuplicateError
    (h : Builder.heap) (this : Builder.ref) (b : Builder.t) (p : part) :
  reachable h -> h !! this = Some b -> repeats b p ->
  append this p h = (inl DuplicateError, h).
Proof.
  intros Hr Hthis Hrep.
  destruct (reachable_inv h Hr this b Hthis) as [He Ho Hrange [Hp1 Hp2]].
  unfold DuplicateError. rewrite <- He.
  destruct p; cbn [append repeats] in Hrep |- *; try contradiction.
  - destruct Hrep as [Hel Hz]. rewrite (element_run _ _ _ Hthis), Hz, Hel.
    reflexivity.
  - rewrite (id_run _ _ _ Hthis), Hrep. reflexivity.
  - rewrite (pseudoElement_run _ _ _ Hthis), Hrep.
    f_equal. apply insert_id. rewrite Hthis. f_equal.
    destruct b; cbn in *. now rewrite (Hp1 Hrep).
Qed.

Lemma C3_witness :
  append 1 (Id "second") after_id = (inl DuplicateError, after_id).
Proof.
  apply (C3_repeated_singleton_throws_DuplicateError after_id 1
           (Builder.mk "#main" false false Builder.error_text
              Builder.orderError_text 1) (Id "second")).
  - exists [New; Append 1%positive (Id "main")]. reflexivity.
  - vm_compute. reflexivity.
  - reflexivity.
Defined.

(** What [repeats] stands for: right after a singleton fragment was
    appended, the builder carries it. *)
Lemma appended_repeats (h h' : Builder.heap) this p r :
  rank p = 0 \/ rank p = 1 \/ rank p = 5 ->
  append this p h = (inr r, h') ->
  exists b', h' !! this = Some b' /\ repeats b' p.
Proof.
  intros Hs. destruct (h !! this) as [b|] eqn:Hthis;
    [|rewrite append_dangling by assumption; discriminate].
  destruct p; cbn [rank] in Hs; try lia; cbn [append repeats];
    [ rewrite (element_run _ _ _ Hthis) | rewrite (id_run _ _ _ Hthis)
    | rewrite (pseudoElement_run _ _ _ Hthis) ];
    repeat match goal with
           | |- context [if ?c then _ else _] => destruct c eqn:?
           end; intros [= <- <-]; eexists;
    (split; [apply lookup_insert_eq|]); cbn; tests_to_Z; auto.
Qed.

(** C5. A second [pseudoElement] call on a builder that carries a
    pseudo-element throws the duplicate error, and the assignment
    [this.order = 5] that precedes the check is made all the same: the
    builder left behind is the old one with [order] set to 5. *)
Theorem C5_second_pseudoElement_sets_order
    (h : Builder.heap) (this : Builder.ref) (b : Builder.t) (value : string) :
  h !! this = Some b ->
  Builder.error b = Builder.error_text ->
  Builder.pseudo b = true ->
  Builder.pseudoElement this value h =
    (inl DuplicateError, <[this := Builder.set_order 5 b]> h) /\
  Builder.order <$> (<[this := Builder.set_order 5 b]> h) !! this = Some 5.
Proof.
  intros Hthis He Hp. split.
  - rewrite (pseudoElement_run _ _ _ Hthis), Hp. unfold DuplicateError.
    now rewrite He.
  - now rewrite lookup_insert_eq.
Qed.

Lemma C5_witness :
  fst (Builder.pseudoElement 1 "before" after_pseudoElement) =
    inl DuplicateError /\
  Builder.order <$>
    snd (Builder.pseudoElement 1 "before" after_pseudoElement) !! 1%positive =
    Some 5.
Proof.
  pose proof (C5_second_pseudoElement_sets_order after_pseudoElement 1
           (Builder.mk "::after" false true Builder.error_text
              Builder.orderError_text 5) "before"
           ltac:(vm_compute; reflexivity) eq_refl eq_refl) as [H1 H2].
  rewrite H1. split; [reflexivity | exact H2].
Defined.

(** C6. In every reachable store, a fragment call that throws leaves the
    store, hence every field of the builder, as it was before the call.
    For [pseudoElement] the assignment [this.order = 5] is made before the
    check; the check rejects only a builder that carries a pseudo-element,
    and such a builder has [order] 5 already. *)
Theorem C6_failed_call_leaves_state
    (h h' : Builder.heap) (this : Builder.ref) (p : part) (e : exn) :
  reachable h -> append this p h = (inl e, h') -> h' = h.
Proof.
  intros Hr. destruct (h !! this) as [b|] eqn:Hthis;
    [|rewrite append_dangling by assumption; congruence].
  destruct (reachable_inv h Hr this b Hthis) as [He Ho Hrange [Hp1 Hp2]].
  destruct p; cbn [append];
    [ rewrite (element_run _ _ _ Hthis) | rewrite (id_run _ _ _ Hthis)
    | rewrite (class_run _ _ _ Hthis) | rewrite (attr_run _ _ _ Hthis)
    | rewrite (pseudoClass_run _ _ _ Hthis)
    | rewrite (pseudoElement_run _ _ _ Hthis) ];
    repeat match goal with
           | |- context [if ?c then _ else _] => destruct c eqn:?
           end; intros [= <- <-]; try reflexivity.
  apply insert_id. rewrite Hthis. f_equal.
  destruct b; cbn in *. now rewrite Hp1.
Qed.

Lemma C6_witness :
  snd (append 1 (PseudoElement "before") after_pseudoElement) =
    after_pseudoElement.
Proof.
  apply (C6_failed_call_leaves_state after_pseudoElement _ 1
           (PseudoElement "before") DuplicateError).
  - exists [New; Append 1%positive (PseudoElement "after")]. reflexivity.
  - vm_compute. reflexivity.
Defined.

(** ** [combine] and [stringify] *)

(** The facade's [combine] on two builders of the store. *)
Lemma facade_combine_run (h : Builder.heap) s1 s2 c b1 b2 :
  h !! s1 = Some b1 -> h !! s2 = Some b2 ->
  cssSelectorBuilder.combine s1 c s2 h =
    (inr (fresh (dom h)),
     <[fresh (dom h) :=
         Builder.mk (Builder.result b1 +:+ " " +:+ c +:+ " " +:+ Builder.result b2)
           false false Builder.error_text Builder.orderError_text 0]> h).
Proof.
  intros H1 H2. unfold cssSelectorBuilder.combine.
  unfold mbind at 1. unfold Builder.M_bind. rewrite new_run.
  assert (fresh (dom h) <> s1) as N1
    by (intros E; rewrite <- E, fresh_unused in H1; discriminate).
  assert (fresh (dom h) <> s2) as N2
    by (intros E; rewrite <- E, fresh_unused in H2; discriminate).
  unfold mbind, Builder.M_bind.
  erewrite combine_run;
    [ | apply lookup_insert_eq | rewrite lookup_insert_ne; eassumption
      | rewrite lookup_insert_ne; eassumption ].
  cbn. now rewrite insert_insert_eq.
Qed.

Lemma written_weaken (h h' : Builder.heap) (e : combination) (s : string) :
  h ⊆ h' -> written h e = Some s -> written h' e = Some s.
Proof.
  intros Hsub. revert s. induction e as [r | e1 IH1 c e2 IH2]; intros s; cbn.
  - destruct (h !! r) as [b|] eqn:Hr; [|discriminate].
    now rewrite (lookup_weaken _ _ _ _ Hr Hsub).
  - destruct (written h e1) as [s1|]; [|discriminate].
    destruct (written h e2) as [s2|]; [|discriminate].
    now rewrite (IH1 _ eq_refl), (IH2 _ eq_refl).
Qed.

Lemma eval_written (e : combination) :
  forall (h : Builder.heap) (s : string),
  written h e = Some s ->
  exists r h' b,
    eval e h = (inr r, h') /\ h ⊆ h' /\
    h' !! r = Some b /\ Builder.result b = s.
Proof.
  induction e as [r | e1 IH1 c e2 IH2]; intros h s; cbn [written eval].
  - destruct (h !! r) as [b|] eqn:Hr; [|discriminate]. intros [= <-].
    exists r, h, b. auto.
  - destruct (written h e1) as [s1|] eqn:W1; [|discriminate].
    destruct (written h e2) as [s2|] eqn:W2; [|discriminate].
    cbn. intros [= <-].
    destruct (IH1 h s1 W1) as (r1 & h1 & b1 & E1 & S1 & L1 & R1).
    destruct (IH2 h1 s2 (written_weaken _ _ _ _ S1 W2))
      as (r2 & h2 & b2 & E2 & S2 & L2 & R2).
    pose proof (lookup_weaken _ _ _ _ L1 S2) as L1'.
    unfold mbind, Builder.M_bind. rewrite E1, E2.
    rewrite (facade_combine_run h2 r1 r2 c b1 b2 L1' L2), R1, R2.
    eexists _, _, _. split; [reflexivity|].
    split; [|split; [apply lookup_insert_eq | reflexivity]].
    transitivity h1; [exact S1|]. transitivity h2; [exact S2|].
    apply insert_subseteq, fresh_unused.
Qed.

(** C4. [combine] has no order check and no duplicate check: called on any
    builder [this], in any state, with any two builders of the store, it
    returns, and [stringify()] on its result is the text of the first,
    a space, the combinator, a space, the text of the second.  Nested calls
    of the facade's [combine] give the combination as written, left to
    right. *)
Theorem C4_combine_stringify
    (h : Builder.heap) (this selector1 selector2 : Builder.ref)
    (b b1 b2 : Builder.t) (combinator : string)
    (e : combination) (s : string) :
  h !! this = Some b -> h !! selector1 = Some b1 -> h !! selector2 = Some b2 ->
  written h e = Some s ->
  (exists h',
     Builder.combine this selector1 combinator selector2 h = (inr this, h') /\
     Builder.stringify this h' =
       (inr (Builder.result b1 +:+ " " +:+ combinator +:+ " " +:+
             Builder.result b2), h')) /\
  (exists r h',
     cssSelectorBuilder.combine selector1 combinator selector2 h = (inr r, h') /\
     Builder.stringify r h' =
       (inr (Builder.result b1 +:+ " " +:+ combinator +:+ " " +:+
             Builder.result b2), h')) /\
  (exists r h',
     eval e h = (inr r, h') /\ Builder.stringify r h' = (inr s, h')).
Proof.
  intros Hthis H1 H2 Hw. split; [|split].
  - eexists. split; [apply (combine_run _ _ _ Hthis _ _ _ _ _ H1 H2)|].
    erewrite stringify_run by apply lookup_insert_eq. reflexivity.
  - eexists _, _. split; [apply (facade_combine_run _ _ _ _ _ _ H1 H2)|].
    erewrite stringify_run by apply lookup_insert_eq. reflexivity.
  - destruct (eval_written e h s Hw) as (r & h' & b' & E & _ & L & R).
    exists r, h'. split; [exact E|].
    now rewrite (stringify_run _ _ _ L), R.
Qed.

Lemma C4_witness :
  fst ((Builder.combine 3 1 "+" 2;; Builder.stringify 3) three_builders) =
    inr "div#main + table#data" /\
  fst ((r ← cssSelectorBuilder.combine 1 "+" 2; Builder.stringify r)
         three_builders) =
    inr "div#main + table#data" /\
  fst ((r ← eval (Comb (Comb (Leaf 1) ">" (Leaf 2)) "+"
                    (Comb (Leaf 2) "~" (Leaf 1)));
        Builder.stringify r) three_builders) =
    inr "div#main > table#data + table#data ~ div#main".
Proof.
  destruct (C4_combine_stringify three_builders 3 1 2
              (Builder.mk ".old" false false Builder.error_text
                 Builder.orderError_text 2)
              (Builder.mk "div#main" true false Builder.error_text
                 Builder.orderError_text 1)
              (Builder.mk "table#data" true false Builder.error_text
                 Builder.orderError_text 1)
              "+"
              (Comb (Comb (Leaf 1) ">" (Leaf 2)) "+"
                 (Comb (Leaf 2) "~" (Leaf 1)))
              "div#main > table#data + table#data ~ div#main"
              ltac:(vm_compute; reflexivity) ltac:(vm_compute; reflexivity)
              ltac:(vm_compute; reflexivity) ltac:(vm_compute; reflexivity))
    as ((h1 & E1 & S1) & (r2 & h2 & E2 & S2) & (r3 & h3 & E3 & S3)).
  unfold mbind, Builder.M_bind. rewrite E1, S1, E2, S2, E3, S3.
  repeat split.
Defined.

(** C7. [combine] called on a third builder leaves its two arguments as
    they were: after [this.combine(selector1, combinator, selector2)] with
    [this] neither of the two, and after the facade's [combine], which
    makes a new builder, both hold what they held. *)
Theorem C7_combine_leaves_arguments
    (h : Builder.heap) (this selector1 selector2 : Builder.ref)
    (b1 b2 : Builder.t) (combinator : string) :
  this <> selector1 -> this <> selector2 ->
  h !! selector1 = Some b1 -> h !! selector2 = Some b2 ->
  (snd (Builder.combine this selector1 combinator selector2 h) !! selector1
     = Some b1 /\
   snd (Builder.combine this selector1 combinator selector2 h) !! selector2
     = Some b2) /\
  (snd (cssSelectorBuilder.combine selector1 combinator selector2 h)
     !! selector1 = Some b1 /\
   snd (cssSelectorBuilder.combine selector1 combinator selector2 h)
     !! selector2 = Some b2).
Proof.
  intros N1 N2 H1 H2. split.
  - destruct (h !! this) as [b|] eqn:Hthis.
    + rewrite (combine_run _ _ _ Hthis _ _ _ _ _ H1 H2). cbn [snd].
      now rewrite !lookup_insert_ne.
    + rewrite combine_dangling by auto. auto.
  - rewrite (facade_combine_run _ _ _ _ _ _ H1 H2). cbn [snd].
    rewrite !lookup_insert_ne; auto;
      intros E; [rewrite <- E, fresh_unused in H2 | rewrite <- E, fresh_unused in H1];
      discriminate.
Qed.

Lemma C7_witness :
  snd (Builder.combine 3 1 "+" 2 three_builders) !! 1%positive =
    three_builders !! 1%positive /\
  snd (Builder.combine 3 1 "+" 2 three_builders) !! 2%positive =
    three_builders !! 2%positive.
Proof.
  destruct (C7_combine_leaves_arguments three_builders 3 1 2
              (Builder.mk "div#main" true false Builder.error_text
                 Builder.orderError_text 1)
              (Builder.mk "table#data" true false Builder.error_text
                 Builder.orderError_text 1)
              "+" ltac:(discriminate) ltac:(discriminate)
              ltac:(vm_compute; reflexivity) ltac:(vm_compute; reflexivity))
    as [[A1 A2] _].
  rewrite A1, A2. split; vm_compute; reflexivity.
Defined.

(** C8. [stringify()] returns the accumulated text and leaves the store as
    it is, so a second call returns the same text; on [new Builder()] it
    returns the empty string. *)
Theorem C8_stringify_pure
    (h : Builder.heap) (this : Builder.ref) (b : Builder.t) :
  h !! this = Some b ->
  Builder.stringify this h = (inr (Builder.result b), h) /\
  (s1 ← Builder.stringify this; s2 ← Builder.stringify this; mret (s1, s2)) h
    = (inr (Builder.result b, Builder.result b), h) /\
  fst ((r ← Builder.new; Builder.stringify r) h) = inr "".
Proof.
  intros Hthis. split; [|split].
  - apply stringify_run, Hthis.
  - unfold mbind, Builder.M_bind. now rewrite !(stringify_run _ _ _ Hthis).
  - unfold mbind, Builder.M_bind. rewrite new_run.
    erewrite stringify_run by apply lookup_insert_eq. reflexivity.
Qed.

Lemma C8_witness :
  Builder.stringify 1 after_element_class = (inr "table.wide", after_element_class).
Proof.
  apply (C8_stringify_pure after_element_class 1
           (Builder.mk "table.wide" true false Builder.error_text
              Builder.orderError_text 2)).
  vm_compute. reflexivity.
Defined.

(** ** [Rectangle] *)

(** C9. For all numbers [w] and [h], whatever [Rectangle.prototype] held
    before, [new Rectangle(w, h)] is an object whose [width] is [w], whose
    [height] is [h], and whose [getArea()] returns [w * h]. *)
Theorem C9_Rectangle_area
    (number : Type) (times : number -> number -> number) (w h : number)
    (proto : Rectangle_prototype) :
  width (Rectangle times w h proto).1 = w /\
  height (Rectangle times w h proto).1 = h /\
  call_getArea (Rectangle times w h proto).2 (Rectangle times w h proto).1
    = inr (times w h).
Proof. repeat split. Qed.

(** The example of the source, on binary64 numbers. *)
Example Rectangle_10_20 (proto : Rectangle_prototype) :
  call_getArea (Rectangle PrimFloat.mul 10%float 20%float proto).2
    (Rectangle PrimFloat.mul 10%float 20%float proto).1 = inr 200%float.
Proof. reflexivity. Qed.

(** Before any constructor call, the prototype has no [getArea]. *)
Example getArea_before_construction (r : @Rectangle_object float) :
  call_getArea {| getArea := None |} r = inl TypeError.
Proof. reflexivity. Qed.

(** ** [getJSON] and [fromJSON] *)

Lemma lookup_key_None {A : Type} (k : string) (l : list (string * A)) :
  k ∉ l.*1 -> lookup_key k l = None.
Proof.
  induction l as [|[k' a] l IH]; cbn; [reflexivity|].
  rewrite not_elem_of_cons. intros [Hne Hnin].
  now rewrite decide_False, IH.
Qed.

Lemma lookup_key_app {A : Type} (k : string) (l1 l2 : list (string * A)) :
  k ∉ l1.*1 -> lookup_key k (l1 ++ l2) = lookup_key k l2.
Proof.
  induction l1 as [|[k' a] l1 IH]; cbn; [reflexivity|].
  rewrite not_elem_of_cons. intros [Hne Hnin].
  now rewrite decide_False, IH.
Qed.

Lemma define_key_new {A : Type} (k : string) (a : A) (l : list (string * A)) :
  k ∉ l.*1 -> define_key k a l = l ++ [(k, a)].
Proof.
  induction l as [|[k' a'] l IH]; cbn; [reflexivity|].
  rewrite not_elem_of_cons. intros [Hne Hnin].
  now rewrite decide_False, IH.
Qed.

Section copy_loop.
Context {number : Type}.
Variables (x : prototype_chain number) (members : properties number).

(** The [forEach] loop of [fromJSON], from any point on: the keys copied
    so far are own properties of [r], the others follow. *)
Lemma copy_members (done todo : properties number) :
  members = done ++ todo ->
  NoDup members.*1 ->
  (forall k, k ∈ todo.*1 ->
     inherited k x = None \/ inherited k x = Some (Data true)) ->
  foldl (fun r k => assign r k (get_property (Obj members) k))
    {| prototype := x; own := done |} todo.*1
  = {| prototype := x; own := members |}.
Proof.
  revert done. induction todo as [|[k v] todo IH]; intros done Hm Hnd Hk.
  - cbn. now rewrite Hm, app_nil_r.
  - cbn [fmap list_fmap foldl fst].
    assert (k ∉ done.*1) as Hnew.
    { rewrite Hm, fmap_app in Hnd. apply NoDup_app in Hnd as (_ & Hd & _).
      intros Hin. apply (Hd k Hin). cbn. left. }
    assert (get_property (Obj members) k = v) as ->.
    { unfold get_property. cbn [own_enumerable].
      rewrite Hm, lookup_key_app by exact Hnew. cbn.
      now rewrite decide_True. }
    assert (assign {| prototype := x; own := done |} k v =
            {| prototype := x; own := done ++ [(k, v)] |}) as ->.
    { unfold assign. cbn [own prototype].
      rewrite lookup_key_None by exact Hnew.
      destruct (Hk k) as [-> | ->]; [cbn; left | |];
        now rewrite define_key_new. }
    apply IH; [now rewrite <- app_assoc | exact Hnd |].
    intros k' Hin. apply Hk. cbn. now right.
Qed.

End copy_loop.

(** The first example of the source: [[1,2,3]  =>  '[1,2,3]']. *)
Example getJSON_array :
  getJSON JSON.stringify (Arr [Num 1; Num 2; Num 3]) = Some "[1,2,3]".
Proof. vm_compute. reflexivity. Qed.

(** Through a read-only property of the prototype, or an accessor with no
    setter, the assignment of [fromJSON] does nothing. *)
Example fromJSON_read_only :
  fromJSON JSON.parse [[("radius", Data false)]] radius_10_text =
    inr {| prototype := [[("radius", Data false)]]; own := [] |} /\
  fromJSON JSON.parse [[("radius", Accessor None)]] radius_10_text =
    inr {| prototype := [[("radius", Accessor None)]]; own := [] |}.
Proof. split; vm_compute; reflexivity. Qed.

(** What [JSON.parse] returns need not be an object. *)
Example fromJSON_not_an_object :
  fromJSON JSON.parse Square_prototype "[7,8]" =
    inr {| prototype := Square_prototype;
           own := [("0", Num 7); ("1", Num 8)] |} /\
  fromJSON JSON.parse Square_prototype "null" = inl TypeError /\
  fromJSON JSON.parse Square_prototype "undefined" = inl SyntaxError.
Proof. repeat split; vm_compute; reflexivity. Qed.

(** C10, as stated, fails: [Circle.prototype] has an accessor [radius];
    [fromJSON(Circle.prototype, getJSON({ radius: 10 }))] calls its setter
    and the object returned has no own property [radius]. *)
Lemma C10_setter_on_prototype :
  getJSON JSON.stringify (Obj radius_10) = Some radius_10_text /\
  JSON.parse radius_10_text = Some (Obj radius_10) /\
  fromJSON JSON.parse Circle_prototype radius_10_text =
    inr {| prototype := Circle_prototype; own := [("r", Num 10)] |} /\
  [("r", Num 10)] <> radius_10.
Proof.
  split; [|split; [|split]]; try (vm_compute; reflexivity).
  discriminate.
Qed.

(** C10, amended.  Let [members] be the own properties of a plain object,
    [y] the text [JSON.stringify] gives for it, and let [JSON.parse] give
    the object back from [y].  If no key of the object names, on the chain
    of [x], an accessor or a read-only property, then [fromJSON(x, y)] is
    an object whose prototype is [x] and whose own properties are
    [members]. *)
Theorem C10_fromJSON_getJSON
    (number : Type)
    (JSON_stringify : value number -> option string)
    (JSON_parse : string -> option (value number))
    (x : prototype_chain number) (members : properties number) (y : string) :
  NoDup members.*1 ->
  getJSON JSON_stringify (Obj members) = Some y ->
  JSON_parse y = Some (Obj members) ->
  (forall k, k ∈ members.*1 ->
     inherited k x = None \/ inherited k x = Some (Data true)) ->
  fromJSON JSON_parse x y = inr {| prototype := x; own := members |}.
Proof.
  intros Hnd _ Hparse Hk. unfold fromJSON. rewrite Hparse.
  cbn [Object_keys own_enumerable fmap option_fmap option_map].
  f_equal. now apply (copy_members x members [] members).
Qed.

Lemma C10_witness :
  fromJSON JSON.parse Square_prototype radius_10_text =
    inr {| prototype := Square_prototype; own := radius_10 |}.
Proof.
  apply (C10_fromJSON_getJSON Z JSON.stringify JSON.parse Square_prototype
           radius_10 radius_10_text).
  - apply NoDup_singleton.
  - vm_compute. reflexivity.
  - vm_compute. reflexivity.
  - intros k Hk. apply list_elem_of_singleton in Hk. subst k. left. reflexivity.
Defined.

(* ================================================================== *)
(** * Further properties of the selector builder *)

(** ** One call *)

Lemma append_admitted (h : Builder.heap) this b p :
  h !! this = Some b -> admits b p = true ->
  append this p h = (inr this, <[this := after b p]> h).
Proof.
  intros Hthis Ha.
  destruct p; cbn [append admits after] in *;
    [ rewrite (element_run _ _ _ Hthis) | rewrite (id_run _ _ _ Hthis)
    | rewrite (class_run _ _ _ Hthis) | rewrite (attr_run _ _ _ Hthis)
    | rewrite (pseudoClass_run _ _ _ Hthis)
    | rewrite (pseudoElement_run _ _ _ Hthis) ];
    repeat match goal with
           | |- context [if ?c then _ else _] => destruct c eqn:?
           end; cbn in Ha; try discriminate; reflexivity.
Qed.

Lemma append_rejected (h : Builder.heap) this b p :
  h !! this = Some b -> admits b p = false ->
  exists e h', append this p h = (inl e, h').
Proof.
  intros Hthis Ha.
  destruct p; cbn [append admits] in *;
    [ rewrite (element_run _ _ _ Hthis) | rewrite (id_run _ _ _ Hthis)
    | rewrite (class_run _ _ _ Hthis) | rewrite (attr_run _ _ _ Hthis)
    | rewrite (pseudoClass_run _ _ _ Hthis)
    | rewrite (pseudoElement_run _ _ _ Hthis) ];
    repeat match goal with
           | |- context [if ?c then _ else _] => destruct c eqn:?
           end; cbn in Ha; try discriminate; eauto.
Qed.

(** On a builder that satisfies the class invariant, the guards let a call
    through exactly when its rank is not below [order] and it does not
    repeat a singleton. *)
Lemma admits_iff (b : Builder.t) (p : part) :
  Builder_inv b ->
  admits b p = true <-> ~ rank p < Builder.order b /\ ~ repeats b p.
Proof.
  intros [_ _ Hrange [Hp1 Hp2]].
  destruct p; cbn [admits rank repeats]; unfold truthy;
    rewrite ?andb_true_iff, ?negb_true_iff, ?negb_false_iff,
      ?Z.ltb_ge, ?Z.eqb_eq, ?Z.eqb_neq.
  - destruct (Builder.el b); split; [intros [? [=]] | | intros [? ?] |];
      intuition (try lia; try congruence).
  - lia.
  - intuition lia.
  - intuition lia.
  - intuition lia.
  - destruct (Builder.pseudo b); split; intuition (try lia; try congruence).
Qed.

(** What a rejected call throws, and that it writes nothing. *)
Lemma append_rejected_inv (h : Builder.heap) this b p :
  h !! this = Some b -> Builder_inv b -> admits b p = false ->
  (rank p < Builder.order b /\ append this p h = (inl OrderError, h)) \/
  (~ rank p < Builder.order b /\ repeats b p /\
   append this p h = (inl DuplicateError, h)).
Proof.
  intros Hthis [He Ho Hrange [Hp1 Hp2]] Ha.
  unfold OrderError, DuplicateError. rewrite <- He, <- Ho.
  destruct p; cbn [append admits rank repeats] in *;
    [ rewrite (element_run _ _ _ Hthis) | rewrite (id_run _ _ _ Hthis)
    | rewrite (class_run _ _ _ Hthis) | rewrite (attr_run _ _ _ Hthis)
    | rewrite (pseudoClass_run _ _ _ Hthis)
    | rewrite (pseudoElement_run _ _ _ Hthis) ];
    repeat match goal with
           | |- context [if ?c then _ else _] => destruct c eqn:?
           end; cbn in Ha; try discriminate; tests_to_Z;
    try (left; split; [lia | reflexivity]);
    try (right; split; [lia | split; [auto; lia | reflexivity]]).
  right. split; [lia|]. split; [reflexivity|].
  f_equal. apply insert_id. rewrite Hthis. f_equal.
  destruct b; cbn in *. now rewrite Hp1.
Qed.

(** X1. The class invariant: every builder of a reachable store still has
    the two messages the constructor gave it, an [order] between 0 and 5,
    and its [pseudo] flag set exactly when [order] is 5. *)
Theorem X1_class_invariant
    (h : Builder.heap) (this : Builder.ref) (b : Builder.t) :
  reachable h -> h !! this = Some b ->
  Builder.error b = Builder.error_text /\
  Builder.orderError b = Builder.orderError_text /\
  0 <= Builder.order b <= 5 /\
  (Builder.pseudo b = true <-> Builder.order b = 5).
Proof.
  intros Hr Hthis. now destruct (reachable_inv h Hr this b Hthis).
Qed.

Lemma X1_witness :
  0 <= 1 <= 5 /\ (false = true <-> 1 = 5).
Proof.
  pose proof (X1_class_invariant three_builders 2
                (Builder.mk "table#data" true false Builder.error_text
                   Builder.orderError_text 1)
                ltac:(eexists; reflexivity) ltac:(vm_compute; reflexivity))
    as (_ & _ & H).
  exact H.
Defined.

(** X2. In a reachable store a fragment call on a builder throws nothing
    but the two errors of the class: the order error, and then the rank of
    the call is below [order]; or the duplicate error, and then the rank
    is not below [order] and the call repeats a singleton. *)
Theorem X2_what_a_call_throws
    (h h' : Builder.heap) (this : Builder.ref) (b : Builder.t) (p : part)
    (e : exn) :
  reachable h -> h !! this = Some b -> append this p h = (inl e, h') ->
  (e = OrderError /\ rank p < Builder.order b) \/
  (e = DuplicateError /\ ~ rank p < Builder.order b /\ repeats b p).
Proof.
  intros Hr Hthis Hcall.
  pose proof (reachable_inv h Hr this b Hthis) as Hb.
  destruct (admits b p) eqn:Ha.
  - rewrite (append_admitted _ _ _ _ Hthis Ha) in Hcall. discriminate.
  - destruct (append_rejected_inv _ _ _ _ Hthis Hb Ha) as [[Hlt E] | (Hn & Hrep & E)];
      rewrite E in Hcall; injection Hcall as <- <-; auto.
Qed.

Lemma X2_witness :
  (DuplicateError = OrderError /\ rank (Id "second") < 1) \/
  (DuplicateError = DuplicateError /\ ~ rank (Id "second") < 1 /\
   1 = 1).
Proof.
  exact (X2_what_a_call_throws after_id after_id 1
           (Builder.mk "#main" false false Builder.error_text
              Builder.orderError_text 1) (Id "second") DuplicateError
           ltac:(eexists; reflexivity) ltac:(vm_compute; reflexivity)
           ltac:(vm_compute; reflexivity)).
Defined.

(** X3. In a reachable store, a fragment call whose rank is not below
    [order] and which repeats no singleton returns [this]; it appends its
    fragment to the text, raises [order] to the rank of the call if that
    is higher, sets the flag of an element or a pseudo-element, and
    changes nothing else in the store. *)
Theorem X3_what_a_call_appends
    (h : Builder.heap) (this : Builder.ref) (b : Builder.t) (p : part) :
  reachable h -> h !! this = Some b ->
  ~ rank p < Builder.order b -> ~ repeats b p ->
  append this p h = (inr this, <[this := after b p]> h) /\
  Builder.result (after b p) = Builder.result b +:+ fragment p /\
  Builder.order (after b p) = Z.max (Builder.order b) (rank p) /\
  Builder.el (after b p) = Builder.el b || (rank p =? 0) /\
  Builder.pseudo (after b p) = Builder.pseudo b || (rank p =? 5) /\
  Builder.error (after b p) = Builder.error b /\
  Builder.orderError (after b p) = Builder.orderError b.
Proof.
  intros Hr Hthis Hlt Hrep.
  pose proof (reachable_inv h Hr this b Hthis) as Hb.
  assert (admits b p = true) as Ha by (apply admits_iff; auto).
  split; [now apply append_admitted|].
  destruct Hb as [_ _ Hrange _].
  destruct p; cbn [rank] in *; cbn; rewrite ?orb_false_r, ?orb_true_r;
    repeat split; lia.
Qed.

Lemma X3_witness :
  append 1 (Attr "href") after_element_class =
    (inr 1%positive,
     <[1%positive := Builder.mk "table.wide[href]" true false Builder.error_text
                       Builder.orderError_text 3]> after_element_class).
Proof.
  exact (proj1 (X3_what_a_call_appends after_element_class 1
           (Builder.mk "table.wide" true false Builder.error_text
              Builder.orderError_text 2) (Attr "href")
           ltac:(exists [New; Append 1%positive (Element "table");
                         Append 1%positive (Class "wide")]; reflexivity)
           ltac:(vm_compute; reflexivity)
           ltac:(cbn; lia) ltac:(cbn; tauto))).
Defined.

(** ** Chains *)

Lemma result_after (b : Builder.t) (p : part) :
  Builder.result (after b p) = Builder.result b +:+ fragment p.
Proof. now destruct p. Qed.

Lemma result_foldl_after (ps : list part) (b : Builder.t) :
  Builder.result (foldl after b ps) = Builder.result b +:+ fragments ps.
Proof.
  revert b. induction ps as [|p ps IH]; intros b; cbn [foldl fragments foldr].
  - now rewrite string_app_empty_r.
  - fold (fragments ps). now rewrite IH, result_after, string_app_assoc.
Qed.

Lemma chain_accepted (ps : list part) (h : Builder.heap) this b :
  h !! this = Some b -> accepts b ps = true ->
  chain this ps h = (inr this, <[this := foldl after b ps]> h).
Proof.
  revert h b. induction ps as [|p ps IH]; intros h b Hthis Hacc;
    cbn [chain foldl accepts] in *.
  - now rewrite insert_id.
  - apply andb_true_iff in Hacc as [Ha Hacc].
    unfold mbind, Builder.M_bind.
    rewrite (append_admitted _ _ _ _ Hthis Ha).
    rewrite (IH _ (after b p)); [|apply lookup_insert_eq | exact Hacc].
    now rewrite insert_insert_eq.
Qed.

Lemma chain_returns_accepts (ps : list part) (h h' : Builder.heap) this b r :
  h !! this = Some b -> chain this ps h = (inr r, h') -> accepts b ps = true.
Proof.
  revert h b. induction ps as [|p ps IH]; intros h b Hthis;
    cbn [chain accepts]; [reflexivity|].
  unfold mbind, Builder.M_bind.
  destruct (admits b p) eqn:Ha.
  - rewrite (append_admitted _ _ _ _ Hthis Ha). apply IH, lookup_insert_eq.
  - destruct (append_rejected _ _ _ _ Hthis Ha) as (e & h1 & ->). discriminate.
Qed.

(** X4. A chain of fragment calls returns exactly when each call is let
    through by the guards on the builder the calls before it left; it then
    returns [this], the text of the builder is its text before the chain
    followed by the fragments of the calls in call order, and nothing else
    in the store has changed. *)
Theorem X4_chain_returns
    (ps : list part) (h : Builder.heap) (this : Builder.ref) (b : Builder.t) :
  h !! this = Some b ->
  ((exists r h', chain this ps h = (inr r, h')) <-> accepts b ps = true) /\
  (forall r h', chain this ps h = (inr r, h') ->
     r = this /\ h' = <[this := foldl after b ps]> h /\
     Builder.result (foldl after b ps) = Builder.result b +:+ fragments ps).
Proof.
  intros Hthis. split; [split|].
  - intros (r & h' & Hc). exact (chain_returns_accepts _ _ _ _ _ _ Hthis Hc).
  - intros Hacc. eexists _, _. exact (chain_accepted _ _ _ _ Hthis Hacc).
  - intros r h' Hc.
    pose proof (chain_returns_accepts _ _ _ _ _ _ Hthis Hc) as Hacc.
    rewrite (chain_accepted _ _ _ _ Hthis Hacc) in Hc. injection Hc as <- <-.
    auto using result_foldl_after.
Qed.

Lemma X4_witness :
  chain 1 [Attr "href"; PseudoClass "hover"] after_element_class =
    (inr 1%positive,
     <[1%positive := Builder.mk "table.wide[href]:hover" true false
                       Builder.error_text Builder.orderError_text 4]>
       after_element_class).
Proof.
  destruct (X4_chain_returns [Attr "href"; PseudoClass "hover"]
              after_element_class 1
              (Builder.mk "table.wide" true false Builder.error_text
                 Builder.orderError_text 2)
              ltac:(vm_compute; reflexivity)) as [[_ Hret] _].
  destruct (Hret eq_refl) as (r & h' & Hc).
  rewrite Hc. vm_compute in Hc. exact (eq_sym Hc).
Defined.

(** X5. In a reachable store, a chain that throws has run the calls before
    the failing one: it stops at the first call the guards reject, throws
    the order error or the duplicate error, and leaves in the builder the
    fragments of the calls accepted before. *)
Theorem X5_chain_throws
    (ps : list part) (h h' : Builder.heap) (this : Builder.ref)
    (b : Builder.t) (e : exn) :
  reachable h -> h !! this = Some b -> chain this ps h = (inl e, h') ->
  exists pre p suf,
    ps = pre ++ p :: suf /\
    accepts b pre = true /\ admits (foldl after b pre) p = false /\
    h' = <[this := foldl after b pre]> h /\
    (e = OrderError \/ e = DuplicateError).
Proof.
  intros Hr. apply reachable_inv in Hr. revert h b Hr.
  induction ps as [|p ps IH]; intros h b Hinv Hthis; cbn [chain].
  - discriminate.
  - unfold mbind, Builder.M_bind. destruct (admits b p) eqn:Ha.
    + pose proof (append_inv h this p Hinv) as Hinv'.
      rewrite (append_admitted _ _ _ _ Hthis Ha) in Hinv' |- *. cbn [snd] in Hinv'.
      intros Hc.
      destruct (IH _ (after b p) Hinv' (lookup_insert_eq _ _ _) Hc)
        as (pre & q & suf & -> & Hacc & Hrej & -> & He).
      exists (p :: pre), q, suf. cbn [accepts foldl app].
      rewrite Ha, Hacc, insert_insert_eq. auto.
    + destruct (append_rejected_inv _ _ _ _ Hthis (Hinv _ _ Hthis) Ha)
        as [[_ E] | (_ & _ & E)]; rewrite E; intros [= <- <-];
        exists [], p, ps; cbn [accepts foldl app];
        rewrite (insert_id _ _ _ Hthis); auto 6.
Qed.

Lemma X5_witness :
  exists pre p suf,
    [Attr "href"; Class "late"; PseudoClass "hover"] = pre ++ p :: suf /\
    accepts (Builder.mk "table.wide" true false Builder.error_text
               Builder.orderError_text 2) pre = true /\
    Builder.result
      (foldl after (Builder.mk "table.wide" true false Builder.error_text
                      Builder.orderError_text 2) pre) = "table.wide[href]".
Proof.
  destruct (X5_chain_throws [Attr "href"; Class "late"; PseudoClass "hover"]
              after_element_class _ 1
              (Builder.mk "table.wide" true false Builder.error_text
                 Builder.orderError_text 2) OrderError
              ltac:(exists [New; Append 1%positive (Element "table");
                            Append 1%positive (Class "wide")]; reflexivity)
              ltac:(vm_compute; reflexivity)
              ltac:(vm_compute; reflexivity))
    as (pre & p & suf & E & Hacc & Hrej & _ & _).
  exists pre, p, suf. split; [exact E|]. split; [exact Hacc|].
  destruct pre as [|q1 [|q2 pre]]; cbn in E.
  - injection E as <- _. discriminate Hrej.
  - injection E as <- <- _. reflexivity.
  - injection E as <- <- _. cbn in Hacc. discriminate Hacc.
Defined.

(** ** The chains a new builder accepts

    Read backwards from the pseudo-element: what a builder accepts is
    decided by its [order] and its two flags. *)

Ltac head_rejected Ho Hp Hacc :=
  cbn [accepts admits] in Hacc; unfold truthy in Hacc;
  rewrite ?Ho, ?Hp in Hacc; cbn in Hacc; try discriminate Hacc.

Ltac tail_by L Hacc :=
  eapply L in Hacc;
  [| first [reflexivity | left; reflexivity | right; reflexivity
           | assumption] ..].

Lemma accepts_after_pseudoElement (ps : list part) (b : Builder.t) :
  Builder.pseudo b = true -> Builder.order b = 5 ->
  accepts b ps = true -> ps = [].
Proof.
  intros Hp Ho Hacc. destruct ps as [|[v|v|v|v|v|v] ps]; [reflexivity|..];
    head_rejected Ho Hp Hacc.
Qed.

Lemma accepts_after_pseudoClass (ps : list part) :
  forall b : Builder.t,
  Builder.order b = 4 -> Builder.pseudo b = false -> accepts b ps = true ->
  exists pcs pe, ps = calls_of (Build_selector None None [] [] pcs pe).
Proof.
  induction ps as [|[v|v|v|v|v|v] ps IH]; intros b Ho Hp Hacc;
    [exists [], None; reflexivity|..]; head_rejected Ho Hp Hacc.
  - tail_by IH Hacc. destruct Hacc as (pcs & pe & ->).
    exists (v :: pcs), pe. reflexivity.
  - tail_by accepts_after_pseudoElement Hacc. subst ps.
    exists [], (Some v). reflexivity.
Qed.

Lemma accepts_after_attr (ps : list part) :
  forall b : Builder.t,
  Builder.order b = 3 -> Builder.pseudo b = false -> accepts b ps = true ->
  exists ats pcs pe, ps = calls_of (Build_selector None None [] ats pcs pe).
Proof.
  induction ps as [|[v|v|v|v|v|v] ps IH]; intros b Ho Hp Hacc;
    [exists [], [], None; reflexivity|..]; head_rejected Ho Hp Hacc.
  - tail_by IH Hacc. destruct Hacc as (ats & pcs & pe & ->).
    exists (v :: ats), pcs, pe. reflexivity.
  - tail_by accepts_after_pseudoClass Hacc. destruct Hacc as (pcs & pe & ->).
    exists [], (v :: pcs), pe. reflexivity.
  - tail_by accepts_after_pseudoElement Hacc. subst ps.
    exists [], [], (Some v). reflexivity.
Qed.

Lemma accepts_after_class (ps : list part) :
  forall b : Builder.t,
  Builder.order b = 1 \/ Builder.order b = 2 ->
  Builder.pseudo b = false -> accepts b ps = true ->
  exists cs ats pcs pe, ps = calls_of (Build_selector None None cs ats pcs pe).
Proof.
  induction ps as [|[v|v|v|v|v|v] ps IH]; intros b Ho Hp Hacc;
    [exists [], [], [], None; reflexivity|..]; destruct Ho as [Ho | Ho];
    head_rejected Ho Hp Hacc.
  1,2: tail_by IH Hacc; destruct Hacc as (cs & ats & pcs & pe & ->);
    exists (v :: cs), ats, pcs, pe; reflexivity.
  1,2: tail_by accepts_after_attr Hacc; destruct Hacc as (ats & pcs & pe & ->);
    exists [], (v :: ats), pcs, pe; reflexivity.
  1,2: tail_by accepts_after_pseudoClass Hacc; destruct Hacc as (pcs & pe & ->);
    exists [], [], (v :: pcs), pe; reflexivity.
  1,2: tail_by accepts_after_pseudoElement Hacc; subst ps;
    exists [], [], [], (Some v); reflexivity.
Qed.

Lemma accepts_tail (ps : list part) (b : Builder.t) :
  Builder.order b = 0 -> Builder.pseudo b = false -> accepts b ps = true ->
  (exists v ps', ps = Element v :: ps' /\ Builder.el b = false /\
                 accepts (after b (Element v)) ps' = true) \/
  exists i cs ats pcs pe, ps = calls_of (Build_selector None i cs ats pcs pe).
Proof.
  intros Ho Hp Hacc.
  destruct ps as [|[v|v|v|v|v|v] ps];
    [right; exists None, [], [], [], None; reflexivity|..].
  - left. exists v, ps. cbn [accepts admits] in Hacc.
    apply andb_true_iff in Hacc as [Ha Hacc].
    apply andb_true_iff in Ha as [_ Ha]. apply negb_true_iff in Ha. auto.
  - right. head_rejected Ho Hp Hacc. tail_by accepts_after_class Hacc.
    destruct Hacc as (cs & ats & pcs & pe & ->).
    exists (Some v), cs, ats, pcs, pe. reflexivity.
  - right. head_rejected Ho Hp Hacc. tail_by accepts_after_class Hacc.
    destruct Hacc as (cs & ats & pcs & pe & ->).
    exists None, (v :: cs), ats, pcs, pe. reflexivity.
  - right. head_rejected Ho Hp Hacc. tail_by accepts_after_attr Hacc.
    destruct Hacc as (ats & pcs & pe & ->).
    exists None, [], (v :: ats), pcs, pe. reflexivity.
  - right. head_rejected Ho Hp Hacc. tail_by accepts_after_pseudoClass Hacc.
    destruct Hacc as (pcs & pe & ->).
    exists None, [], [], (v :: pcs), pe. reflexivity.
  - right. head_rejected Ho Hp Hacc. tail_by accepts_after_pseudoElement Hacc.
    subst ps. exists None, [], [], [], (Some v). reflexivity.
Qed.

Lemma accepts_new (ps : list part) (b : Builder.t) :
  Builder.order b = 0 -> Builder.el b = false -> Builder.pseudo b = false ->
  accepts b ps = true -> exists s, ps = calls_of s.
Proof.
  intros Ho He Hp Hacc.
  destruct (accepts_tail ps b Ho Hp Hacc)
    as [(v & ps' & -> & _ & Hacc') | (i & cs & ats & pcs & pe & ->)];
    [|eexists; reflexivity].
  destruct (accepts_tail ps' (after b (Element v)) Ho Hp Hacc')
    as [(v' & ps'' & _ & Hel & _) | (i & cs & ats & pcs & pe & ->)];
    [discriminate Hel|].
  exists (Build_selector (Some v) i cs ats pcs pe). reflexivity.
Qed.

(** X6. The chains [new Builder()] accepts are the selectors in a valid
    category ordering and no others: [new Builder().m1(v1)...stringify()]
    returns if and only if the calls are an optional element, an optional
    id, classes, attributes, pseudo-classes and an optional pseudo-element,
    in this order. *)
Theorem X6_accepted_chains_are_the_grammar
    (ps : list part) (h : Builder.heap) :
  (exists text h', build ps h = (inr text, h')) <->
  (exists s, ps = calls_of s).
Proof.
  unfold build, mbind, Builder.M_bind. rewrite new_run.
  set (this := fresh (dom h)).
  set (b0 := Builder.mk "" false false _ _ 0).
  assert ((<[this := b0]> h) !! this = Some b0) as Hthis
    by apply lookup_insert_eq.
  split.
  - intros (text & h' & Hb).
    destruct (chain this ps (<[this := b0]> h)) as [[e|r] h1] eqn:Hc;
      [discriminate|].
    apply (accepts_new ps b0); try reflexivity.
    exact (chain_returns_accepts _ _ _ _ _ _ Hthis Hc).
  - intros [s ->].
    destruct (chain_calls_of this s (<[this := b0]> h) b0 Hthis)
      as (b' & Hc & _); [reflexivity..|].
    rewrite Hc, (stringify_run _ this b') by apply lookup_insert_eq.
    eauto.
Qed.

Lemma X6_witness :
  exists s, [Element "a"; Attr "href"; PseudoClass "focus"] = calls_of s.
Proof.
  apply (X6_accepted_chains_are_the_grammar
           [Element "a"; Attr "href"; PseudoClass "focus"] ∅).
  eexists _, _. vm_compute. reflexivity.
Defined.

(** ** What is never undone *)

(** X7. Whatever a client does next, a builder stays in the store, a flag
    [el] or [pseudo] that is set stays set, and [order] never goes down. *)
Theorem X7_nothing_is_undone
    (ss1 ss2 : list stmt) (r : Builder.ref) (b : Builder.t) :
  run ss1 !! r = Some b ->
  exists b', run (ss1 ++ ss2) !! r = Some b' /\
    (Builder.el b = true -> Builder.el b' = true) /\
    (Builder.pseudo b = true -> Builder.pseudo b' = true) /\
    Builder.order b <= Builder.order b'.
Proof.
  intros Hr. induction ss2 as [|s ss2 IH] using rev_ind.
  - rewrite app_nil_r. exists b. split; [exact Hr|]. repeat split; auto. lia.
  - destruct IH as (b1 & H1 & Hel & Hps & Hord).
    rewrite app_assoc. unfold run in *. rewrite foldl_app. cbn [foldl].
    assert (heap_inv (foldl step ∅ (ss1 ++ ss2))) as Hinv
      by (apply reachable_inv; now exists (ss1 ++ ss2)).
    destruct (step_monotone _ s r b1 Hinv H1) as (b2 & H2 & Hel' & Hps' & Hord').
    exists b2. split; [exact H2|]. repeat split; auto. lia.
Qed.

Lemma X7_witness :
  exists b', three_builders !! 1%positive = Some b' /\
             Builder.el b' = true /\ 0 <= Builder.order b'.
Proof.
  destruct (X7_nothing_is_undone
              [New; Append 1%positive (Element "div")]
              [Append 1%positive (Id "main");
               New; Append 2%positive (Element "table");
               Append 2%positive (Id "data");
               New; Append 3%positive (Class "old")]
              1
              (Builder.mk "div" true false Builder.error_text
                 Builder.orderError_text 0)
              ltac:(vm_compute; reflexivity))
    as (b' & H & Hel & _ & Hord).
  exists b'. split; [exact H|]. split; [apply Hel; reflexivity | exact Hord].
Defined.

(** ** The facade *)

(** X8. An entry point of the facade never throws: in any store it returns
    a builder that was not there before, whose text is the fragment alone,
    and it leaves every builder of the store as it was. *)
Theorem X8_facade_makes_a_new_builder (p : part) (h : Builder.heap) :
  exists b',
    facade p h = (inr (fresh (dom h)), <[fresh (dom h) := b']> h) /\
    h !! fresh (dom h) = None /\
    Builder.result b' = fragment p /\
    (forall r b, h !! r = Some b -> <[fresh (dom h) := b']> h !! r = Some b).
Proof.
  set (b0 := Builder.mk "" false false Builder.error_text
               Builder.orderError_text 0).
  exists (after b0 p).
  assert (facade p = (this ← Builder.new; append this p;; mret this)) as ->
    by now destruct p.
  unfold mbind, Builder.M_bind, mret, Builder.M_ret. rewrite new_run.
  fold b0.
  rewrite (append_admitted _ _ b0 p) by (apply lookup_insert_eq || now destruct p).
  rewrite insert_insert_eq.
  split; [reflexivity|]. split; [apply fresh_unused|].
  split; [now rewrite result_after|].
  intros r b Hr. rewrite lookup_insert_ne; [exact Hr|].
  intros E. rewrite <- E, fresh_unused in Hr. discriminate.
Qed.

(** ** [combine] *)

Lemma append_fst_agree (h1 h2 : Builder.heap) r p :
  (match h1 !! r, h2 !! r with
   | Some b1, Some b2 =>
       Builder.el b1 = Builder.el b2 /\ Builder.pseudo b1 = Builder.pseudo b2 /\
       Builder.order b1 = Builder.order b2 /\
       Builder.error b1 = Builder.error b2 /\
       Builder.orderError b1 = Builder.orderError b2
   | None, None => True
   | _, _ => False
   end) ->
  fst (append r p h1) = fst (append r p h2).
Proof.
  destruct (h1 !! r) as [b1|] eqn:H1, (h2 !! r) as [b2|] eqn:H2;
    try contradiction.
  - intros (E1 & E2 & E3 & E4 & E5).
    destruct p; cbn [append];
      [ rewrite (element_run _ _ _ H1), (element_run _ _ _ H2)
      | rewrite (id_run _ _ _ H1), (id_run _ _ _ H2)
      | rewrite (class_run _ _ _ H1), (class_run _ _ _ H2)
      | rewrite (attr_run _ _ _ H1), (attr_run _ _ _ H2)
      | rewrite (pseudoClass_run _ _ _ H1), (pseudoClass_run _ _ _ H2)
      | rewrite (pseudoElement_run _ _ _ H1), (pseudoElement_run _ _ _ H2) ];
      rewrite E1, E2, E3, E4, E5 || rewrite E2, E3, E4, E5 || idtac;
      rewrite ?E1, ?E2, ?E3, ?E4, ?E5;
      repeat match goal with
             | |- context [if ?c then _ else _] => destruct c
             end; reflexivity.
  - intros _. now rewrite !append_dangling.
Qed.

(** X9. [combine] writes the text of [this] and nothing else: after
    [this.combine(selector1, combinator, selector2)], a fragment call on
    any builder, [this] included, returns or throws what it would have
    returned or thrown before; [order] and the flags of [this] still stand
    for the fragments its text no longer has. *)
Theorem X9_combine_keeps_the_guards
    (h : Builder.heap) (this selector1 selector2 r : Builder.ref)
    (combinator : string) (p : part) :
  fst (append r p
         (snd (Builder.combine this selector1 combinator selector2 h))) =
  fst (append r p h).
Proof.
  destruct (h !! this) as [b|] eqn:Hthis;
    [|now rewrite combine_dangling by auto].
  destruct (h !! selector1) as [b1|] eqn:H1;
    [|now rewrite combine_dangling by auto].
  destruct (h !! selector2) as [b2|] eqn:H2;
    [|now rewrite combine_dangling by auto].
  rewrite (combine_run _ _ _ Hthis _ _ _ _ _ H1 H2). cbn [snd].
  apply append_fst_agree. rewrite lookup_insert. case_decide.
  - subst r. rewrite Hthis. cbn. auto.
  - destruct (h !! r); auto.
Qed.

Lemma string_length_app (a b : string) :
  String.length (a +:+ b) = (String.length a + String.length b)%nat.
Proof.
  induction a as [|x a IH]; [reflexivity|].
  change (S (String.length (a +:+ b)) = S (String.length a + String.length b)).
  now rewrite IH.
Qed.

(** X10. [combine] reads its two arguments before it writes: called on a
    builder that is also one of the arguments, it returns, and the text of
    that builder becomes the combination of the texts the arguments had
    before the call, which is longer than the one it had. *)
Theorem X10_combine_on_its_own_argument
    (h : Builder.heap) (this selector1 selector2 : Builder.ref)
    (b b1 b2 : Builder.t) (combinator : string) :
  h !! this = Some b ->
  h !! selector1 = Some b1 -> h !! selector2 = Some b2 ->
  this = selector1 \/ this = selector2 ->
  exists h',
    Builder.combine this selector1 combinator selector2 h = (inr this, h') /\
    Builder.stringify this h' =
      (inr (Builder.result b1 +:+ " " +:+ combinator +:+ " " +:+
            Builder.result b2), h') /\
    Builder.result b1 +:+ " " +:+ combinator +:+ " " +:+ Builder.result b2
      <> Builder.result b.
Proof.
  intros Hthis H1 H2 Halias. eexists. split; [|split].
  - apply (combine_run _ _ _ Hthis _ _ _ _ _ H1 H2).
  - erewrite stringify_run by apply lookup_insert_eq. reflexivity.
  - intros E. apply (f_equal String.length) in E.
    rewrite !string_length_app in E. cbn [String.length] in E.
    destruct Halias as [<- | <-];
      [rewrite Hthis in H1; injection H1 as <-
      |rewrite Hthis in H2; injection H2 as <-]; lia.
Qed.

Lemma X10_witness :
  fst ((Builder.combine 1 1 ">" 2;; Builder.stringify 1) three_builders) =
    inr "div#main > table#data".
Proof.
  destruct (X10_combine_on_its_own_argument three_builders 1 1 2
              (Builder.mk "div#main" true false Builder.error_text
                 Builder.orderError_text 1)
              (Builder.mk "div#main" true false Builder.error_text
                 Builder.orderError_text 1)
              (Builder.mk "table#data" true false Builder.error_text
                 Builder.orderError_text 1)
              ">"
              ltac:(vm_compute; reflexivity) ltac:(vm_compute; reflexivity)
              ltac:(vm_compute; reflexivity) ltac:(left; reflexivity))
    as (h' & E & S & _).
  unfold mbind, Builder.M_bind. now rewrite E, S.
Defined.

(** X11. The builder the facade's [combine] returns is a new one, with
    [order] 0 and no flag set: a chain of fragment calls in a valid
    category ordering is accepted on it, and its fragments follow the text
    of the second selector with no separator. *)
Theorem X11_fragments_after_combine
    (h : Builder.heap) (selector1 selector2 : Builder.ref)
    (b1 b2 : Builder.t) (combinator : string) (s : selector) :
  h !! selector1 = Some b1 -> h !! selector2 = Some b2 ->
  exists h',
    (r ← cssSelectorBuilder.combine selector1 combinator selector2;
     r' ← chain r (calls_of s);
     Builder.stringify r') h =
    (inr ((Builder.result b1 +:+ " " +:+ combinator +:+ " " +:+
           Builder.result b2) +:+ fragments (calls_of s)), h').
Proof.
  intros H1 H2. unfold mbind, Builder.M_bind.
  rewrite (facade_combine_run _ _ _ _ _ _ H1 H2).
  set (this := fresh (dom h)).
  set (b0 := Builder.mk _ false false _ _ 0).
  destruct (chain_calls_of this s (<[this := b0]> h) b0) as (b' & Hc & Hr);
    [apply lookup_insert_eq | reflexivity ..|].
  rewrite Hc, (stringify_run _ this b') by apply lookup_insert_eq.
  rewrite Hr. eauto.
Qed.

Lemma X11_witness :
  fst ((r ← cssSelectorBuilder.combine 1 "+" 2;
        r' ← chain r [Class "x"; PseudoElement "after"];
        Builder.stringify r') three_builders) =
    inr "div#main + table#data.x::after".
Proof.
  destruct (X11_fragments_after_combine three_builders 1 2
              (Builder.mk "div#main" true false Builder.error_text
                 Builder.orderError_text 1)
              (Builder.mk "table#data" true false Builder.error_text
                 Builder.orderError_text 1)
              "+" (Build_selector None None ["x"] [] [] (Some "after"))
              ltac:(vm_compute; reflexivity) ltac:(vm_compute; reflexivity))
    as (h' & E).
  change (calls_of (Build_selector None None ["x"] [] [] (Some "after")))
    with [Class "x"; PseudoElement "after"] in E.
  now rewrite E.
Defined.

(* ================================================================== *)
(** * Further properties of [fromJSON] *)

Lemma lookup_key_filter_None {A : Type} (f : string * A -> bool) (k : string)
    (l : list (string * A)) :
  k ∉ l.*1 -> lookup_key k (List.filter f l) = None.
Proof.
  induction l as [|[k' a] l IH]; cbn; [reflexivity|].
  rewrite not_elem_of_cons. intros [Hne Hnin].
  destruct (f (k', a)); cbn; [rewrite decide_False by exact Hne|]; auto.
Qed.

Lemma filter_keys {A : Type} (f : string * A -> bool) (k : string)
    (l : list (string * A)) :
  k ∉ l.*1 -> k ∉ (List.filter f l).*1.
Proof.
  induction l as [|[k' a] l IH]; cbn; [auto|].
  rewrite not_elem_of_cons. intros [Hne Hnin].
  destruct (f (k', a)); cbn; [rewrite not_elem_of_cons|]; auto.
Qed.

Section copy_assignable.
Context {number : Type}.
Variables (x : prototype_chain number) (j : value number)
  (ps : properties number).
Hypothesis Hown : own_enumerable j = Some ps.

(** The [forEach] loop of [fromJSON] when no setter is met: the keys the
    chain lets through become own properties, in order; the assignment of
    the others does nothing. *)
Lemma copy_assignable (done todo : properties number) :
  ps = done ++ todo ->
  NoDup ps.*1 ->
  (forall k, k ∈ todo.*1 -> no_setter x k) ->
  foldl (fun r k => assign r k (get_property j k))
    {| prototype := x; own := List.filter (fun m => assignable x m.1) done |}
    todo.*1
  = {| prototype := x; own := List.filter (fun m => assignable x m.1) ps |}.
Proof.
  revert done. induction todo as [|[k v] todo IH]; intros done Hps Hnd Hk.
  - cbn. now rewrite Hps, app_nil_r.
  - cbn [fmap list_fmap foldl fst].
    assert (k ∉ done.*1) as Hnew.
    { rewrite Hps, fmap_app in Hnd. apply NoDup_app in Hnd as (_ & Hd & _).
      intros Hin. apply (Hd k Hin). cbn. left. }
    assert (get_property j k = v) as ->.
    { unfold get_property. rewrite Hown, Hps, lookup_key_app by exact Hnew.
      cbn. now rewrite decide_True. }
    assert (assign {| prototype := x;
                      own := List.filter (fun m => assignable x m.1) done |} k v
            = {| prototype := x;
                 own := List.filter (fun m => assignable x m.1)
                          (done ++ [(k, v)]) |}) as ->.
    { rewrite List.filter_app. cbn [List.filter fst].
      unfold assign, assignable. cbn [own prototype].
      rewrite lookup_key_filter_None by exact Hnew.
      pose proof (Hk k ltac:(cbn; left)) as Hns. unfold no_setter in Hns.
      destruct (inherited k x) as [[[|]|[f|]]|];
        rewrite ?app_nil_r; try reflexivity;
        try (rewrite define_key_new by (apply filter_keys, Hnew); reflexivity).
      now destruct (Hns f). }
    apply IH; [now rewrite <- app_assoc | exact Hnd |].
    intros k' Hin. apply Hk. cbn. now right.
Qed.

End copy_assignable.

(** X12. When no key of the parsed object names a setter on the prototype
    chain, [fromJSON] returns an object with the given prototype whose own
    properties are the members whose key names nothing on the chain or a
    writable property; a member whose key names a read-only
    property or a getter with no setter is dropped, and nothing is
    thrown. *)
Theorem X12_fromJSON_copies_what_is_assignable
    (number : Type) (JSON_parse : string -> option (value number))
    (x : prototype_chain number) (members : properties number) (y : string) :
  NoDup members.*1 ->
  JSON_parse y = Some (Obj members) ->
  (forall k, k ∈ members.*1 -> no_setter x k) ->
  fromJSON JSON_parse x y =
    inr {| prototype := x;
           own := List.filter (fun m => assignable x m.1) members |}.
Proof.
  intros Hnd Hparse Hk. unfold fromJSON. rewrite Hparse.
  cbn [Object_keys own_enumerable fmap option_fmap option_map]. f_equal.
  now apply (copy_assignable x (Obj members) members eq_refl [] members).
Qed.

Lemma X12_witness :
  fromJSON JSON.parse Shape_prototype id_radius_area_text =
    inr {| prototype := Shape_prototype; own := [("radius", Num 10)] |}.
Proof.
  apply (X12_fromJSON_copies_what_is_assignable Z JSON.parse Shape_prototype
           id_radius_area id_radius_area_text).
  - compute_done.
  - vm_compute. reflexivity.
  - intros k Hk f. cbn in Hk.
    repeat (apply elem_of_cons in Hk as [-> | Hk]); [discriminate..|].
    now apply elem_of_nil in Hk.
Defined.

Lemma index_key_inj : Inj (=) (=) index_key.
Proof.
  intros i i' E. unfold index_key in E.
  apply DecimalNat.Unsigned.to_uint_inj.
  assert (forall n, Nat.to_uint n <> Decimal.Nil) as Hnn.
  { intros n. rewrite <- (DecimalNat.Unsigned.of_to n) at 1.
    rewrite DecimalNat.Unsigned.to_of. apply DecimalFacts.unorm_nonnil. }
  apply (f_equal NilZero.uint_of_string) in E.
  rewrite !NilZero.usu in E by apply Hnn. now injection E.
Qed.

Lemma index_keys_NoDup {A : Type} (l : list A) :
  NoDup (imap (fun i v => (index_key i, v)) l).*1.
Proof.
  rewrite fmap_imap.
  rewrite (imap_ext _ (fun i _ => index_key i)) by reflexivity.
  rewrite imap_seq_0. apply NoDup_fmap_2; [apply index_key_inj | apply NoDup_seq].
Qed.

(** X13. What [JSON.parse] returns need not be an object: from the text of
    an array [fromJSON] returns an object, not an array, whose own
    properties are the elements under their indices, so long as the
    prototype chain has no property named by one of these indices. *)
Theorem X13_fromJSON_of_an_array
    (number : Type) (JSON_parse : string -> option (value number))
    (x : prototype_chain number) (items : list (value number)) (y : string) :
  JSON_parse y = Some (Arr items) ->
  (forall i, (i < length items)%nat -> inherited (index_key i) x = None) ->
  fromJSON JSON_parse x y =
    inr {| prototype := x;
           own := imap (fun i v => (index_key i, v)) items |}.
Proof.
  intros Hparse Hfree. unfold fromJSON. rewrite Hparse.
  cbn [Object_keys own_enumerable fmap option_fmap option_map]. f_equal.
  set (ps := imap (fun i v => (index_key i, v)) items).
  assert (forall k, k ∈ ps.*1 -> inherited k x = None) as Hk.
  { intros k Hin. apply list_elem_of_fmap in Hin as ([k' v] & -> & Hin).
    apply list_elem_of_lookup in Hin as [i Hi]. unfold ps in Hi.
    rewrite list_lookup_imap in Hi.
    destruct (items !! i) as [v'|] eqn:Hv; [|discriminate].
    injection Hi as <- <-. apply Hfree. now apply lookup_lt_Some in Hv. }
  etransitivity;
    [apply (copy_assignable x (Arr items) ps eq_refl [] ps eq_refl
              (index_keys_NoDup items));
     intros k Hin f; now rewrite (Hk k Hin)|].
  f_equal. apply List.forallb_filter_id, forallb_forall.
  intros [k v] Hin. unfold assignable. cbn.
  rewrite Hk; [reflexivity|].
  apply list_elem_of_fmap. exists (k, v). split; [reflexivity|].
  now apply list_elem_of_In.
Qed.

Lemma X13_witness :
  fromJSON JSON.parse Square_prototype "[7,8]" =
    inr {| prototype := Square_prototype;
           own := [("0", Num 7); ("1", Num 8)] |}.
Proof.
  apply (X13_fromJSON_of_an_array Z JSON.parse Square_prototype
           [Num 7; Num 8] "[7,8]").
  - vm_compute. reflexivity.
  - intros i Hi. destruct i as [|[|i]]; [reflexivity | reflexivity|].
    cbn in Hi. lia.
Defined.
